(** * dump_ebcdic_tables: a shallow embedding of [dump_ebcdic_tables.py]

    The script drives IBM i's ILE [iconv] through the PASE system calls
    exported by libc ([_ILELOADX], [_ILESYMX], [_ILECALLX], [_RSLOBJ2],
    [_PGMCALL], [_SETSPP], [_MEMCPY_WT2]) and dumps one conversion table
    per CCSID.  The foreign side is kept abstract: it is a record of
    oracles over an arbitrary foreign state, so that every statement below
    holds whatever the ILE side answers.  Python's control flow (exceptions,
    function attributes used as caches, loop-carried locals) is modelled by
    a state-and-exception monad. *)

From Stdlib Require Import ZArith Lia Ascii String.
From Stdlib.Strings Require Import Byte.
From stdpp Require Import base tactics option list strings gmap.

Local Open Scope Z_scope.

(** ** Machine integers of ctypes *)

(** [c_int]: a 32-bit two's complement value, as [.value] reads it. *)
Definition c_int (z : Z) : Z := (z + 2 ^ 31) mod 2 ^ 32 - 2 ^ 31.
(** [c_uint]: a 32-bit unsigned value. *)
Definition c_uint (z : Z) : Z := z mod 2 ^ 32.
(** [c_ulonglong]: a 64-bit unsigned value. *)
Definition c_ulonglong (z : Z) : Z := z mod 2 ^ 64.

(** ** Bytes and Python strings *)

Definition bytes := list byte.

Definition Z_of_byte (b : byte) : Z := Z.of_N (Byte.to_N b).
Definition byte_of_Z (z : Z) : byte :=
  match Byte.of_N (Z.to_N (z mod 256)) with
  | Some b => b
  | None => x00
  end.

(** A Python [str] is a sequence of code points. *)
Definition pystr := list Z.

(** An ASCII literal as a Python [str]. *)
Definition str (s : string) : pystr :=
  map (fun a => Z.of_N (N_of_ascii a)) (list_ascii_of_string s).

(** The value of a byte string read as a big-endian unsigned integer. *)
Definition be_uint (bs : bytes) : Z :=
  fold_left (fun acc b => acc * 256 + Z_of_byte b) bs 0.

(** The [size] low-order bytes of [n], most significant first. *)
Fixpoint be_bytes (size : nat) (n : Z) : bytes :=
  match size with
  | O => []
  | S k => be_bytes k (n / 256) ++ [byte_of_Z n]
  end.

(** [range(a, b)] *)
Fixpoint range_from (a : Z) (n : nat) : list Z :=
  match n with
  | O => []
  | S k => a :: range_from (a + 1) k
  end.

Definition range (a b : Z) : list Z := range_from a (Z.to_nat (b - a)).

(** [create_string_buffer(n)]: [n] zero bytes. *)
Definition zero_buffer (n : nat) : bytes := replicate n x00.

(** A store of [w] through a pointer to the local buffer [buf]: the buffer
    keeps its size, whatever the other side wrote. *)
Definition store (buf w : bytes) : bytes :=
  take (length buf) (w ++ drop (length w) buf).

(** [b[:n]] on a sequence, with Python's treatment of a negative bound. *)
Definition slice_to {A} (l : list A) (n : Z) : list A :=
  if n <? 0 then take (Z.to_nat (Z.of_nat (length l) + n)) l
  else take (Z.to_nat n) l.

(** ** Formatting *)

Definition hex_digit (upper : bool) (d : Z) : Z :=
  if d <? 10 then 48 + d else (if upper then 55 else 87) + d.

(** Digits of [n] in base [base], most significant first; [fuel] bounds the
    number of digits. *)
Fixpoint digits_aux (base : Z) (fuel : nat) (n : Z) (acc : list Z) : list Z :=
  match fuel with
  | O => acc
  | S k => if n <? base then n :: acc
           else digits_aux base k (n / base) (n mod base :: acc)
  end.

Definition digits (base n : Z) : list Z :=
  digits_aux base (S (Z.to_nat (Z.log2 n))) n [].

(** Left padding with ['0'] up to [width] characters. *)
Definition zfill (width : nat) (s : pystr) : pystr :=
  replicate (width - length s)%nat 48 ++ s.

(** [format(n, '0<width>x')], [format(n, '0<width>X')] and
    [format(n, '0<width>d')] for [n >= 0]; a negative number carries its
    sign in front of the padding. *)
Definition fmt_num (base : Z) (upper : bool) (width : nat) (n : Z) : pystr :=
  let ds := map (hex_digit upper) (digits base (Z.abs n)) in
  if n <? 0 then 45 :: zfill (width - 1) ds else zfill width ds.

Definition fmt_x (width : nat) (n : Z) : pystr := fmt_num 16 false width n.
Definition fmt_X (width : nat) (n : Z) : pystr := fmt_num 16 true width n.
Definition fmt_d (width : nat) (n : Z) : pystr := fmt_num 10 false width n.

(** [bytes.hex()]: two lower-case digits per byte. *)
Definition bytes_hex (bs : bytes) : pystr :=
  flat_map (fun b => fmt_x 2 (Z_of_byte b)) bs.

(** ** Python's strict [utf-16be] decoder

    Two bytes per code unit; a high surrogate must be followed by a low
    one and the pair yields one code point; a lone surrogate or a trailing
    odd byte is a [UnicodeDecodeError] ([None] here). *)
Fixpoint utf_16be_decode (bs : bytes) : option pystr :=
  match bs with
  | [] => Some []
  | [_] => None
  | b1 :: b2 :: rest =>
      let u := Z_of_byte b1 * 256 + Z_of_byte b2 in
      if (0xD800 <=? u) && (u <? 0xDC00) then
        match rest with
        | c1 :: c2 :: rest' =>
            let v := Z_of_byte c1 * 256 + Z_of_byte c2 in
            if (0xDC00 <=? v) && (v <? 0xE000) then
              match utf_16be_decode rest' with
              | Some s =>
                  Some (0x10000 + (u - 0xD800) * 0x400 + (v - 0xDC00) :: s)
              | None => None
              end
            else None
        | _ => None
        end
      else if (0xDC00 <=? u) && (u <? 0xE000) then None
      else match utf_16be_decode rest with
           | Some s => Some (u :: s)
           | None => None
           end
  end.

(** ** Constants of the script *)

Definition ILELOAD_LIBOBJ : Z := 0x00000001.
Definition ILESYM_PROCEDURE : Z := 1.
Definition ILECALL_NOINTERRUPT : Z := 0x00000004.
Definition ILECALL_EXCP_NOSIGNAL : Z := 0x00000020.
Definition RSLOBJ_TS_PGM : Z := 0x0201.
Definition RSLOBJ_TS_SRVPGM : Z := 0x0203.
Definition PGMCALL_EXCP_NOSIGNAL : Z := 0x00000020.
Definition RESULT_VOID : Z := 0.
Definition RESULT_INT32 : Z := -5.
Definition RESULT_UINT32 : Z := -6.
Definition ARG_END : Z := 0.
Definition ARG_MEMPTR : Z := -11.

(** ** ctypes structures *)

(** [ILEPointer]: a 16-byte tagged pointer, two 64-bit lanes. *)
Record ILEPointer := mkILEPointer { hi : Z; lo : Z }.

(** [ILEPointer()]: zero-initialised. *)
Definition ILEPointer0 : ILEPointer := mkILEPointer 0 0.

Record qtqcode_t := mk_qtqcode_t {
  ccsid : Z;
  conversion_alternative : Z;
  substitution_alternative : Z;
  shift_state_alternative : Z;
  input_length_option : Z;
  mixed_data_error_option : Z;
}.

(** [iconv_t]: [rtn] and the twelve words of [cd]. *)
Record iconv_t := mk_iconv_t { rtn : Z; cd_words : list Z }.

(** [sizeof(iconv_t)]: thirteen [c_int]. *)
Definition sizeof_iconv_t : Z := 52.

(** The argument lists handed to [_ILECALLX], by what the callee can reach
    through them: the by-value fields, and for every [MemPointer] field the
    object it designates. *)
Inductive arglist :=
  | ILEArglistBase
  | IconvOpenArglist (to_code from_code : qtqcode_t)
  | IconvCloseArglist (cd : iconv_t)
  | IconvArglist (cd : iconv_t)
      (in_ptr : ILEPointer) (in_buf : bytes) (in_len : Z)
      (out_ptr : ILEPointer) (out_buf : bytes) (out_len : Z).

(** What one [_ILECALLX] leaves behind in local memory. *)
Record ilecall_effect := mk_ilecall_effect {
  ile_rc : Z;                 (* the value _ILECALLX returns *)
  ile_result_hi : Z;          (* arglist.base.result.hi *)
  ile_result_ptr : ILEPointer;(* the 16-byte result stored at result.lo *)
  ile_result_cd : iconv_t;    (* the iconv_t result stored at result.lo *)
  ile_out_buf : bytes;        (* bytes stored through out_buf *)
  ile_out_len : Z;            (* word stored through out_len *)
}.

(** The raw argument addresses handed to [_PGMCALL] for QTQGESP, by the
    objects they designate. *)
Record qtqgesp_args := mk_qtqgesp_args {
  ga_ccsid1 : Z; ga_n1 : Z; ga_n2 : Z;
  ga_es : Z; ga_cspl : Z * Z; ga_fb : Z * Z * Z;
}.

(** What one [_PGMCALL] leaves behind in local memory. *)
Record pgmcall_effect := mk_pgmcall_effect {
  pgm_rc : Z;
  pgm_es : Z;
  pgm_cspl : Z * Z;
  pgm_fb : Z * Z * Z;
}.

(** The local buffers whose address is turned into a tagged pointer. *)
Inductive buffer := errno_buf | in_buf_ | out_buf_.

(** ** The PASE system calls

    [F] is the state of the foreign (ILE) side; each call may read and
    change it. *)
Record libc (F : Type) := mk_libc {
  _ILELOADX : string -> Z -> F -> Z * F;
  _ILESYMX : Z -> string -> F -> (Z * ILEPointer) * F;
  _ILECALLX : ILEPointer -> arglist -> list Z -> Z -> Z -> F
              -> ilecall_effect * F;
  _RSLOBJ2 : Z -> string -> string -> F -> (Z * ILEPointer) * F;
  _PGMCALL : ILEPointer -> qtqgesp_args -> Z -> F -> pgmcall_effect * F;
  _SETSPP : buffer -> F -> ILEPointer * F;
  _MEMCPY_WT2 : ILEPointer -> ILEPointer -> Z -> F -> bytes * F;
}.
Arguments _ILELOADX {F}.
Arguments _ILESYMX {F}.
Arguments _ILECALLX {F}.
Arguments _RSLOBJ2 {F}.
Arguments _PGMCALL {F}.
Arguments _SETSPP {F}.
Arguments _MEMCPY_WT2 {F}.

(** The [unicodedata] module, a black box on single code points:
    [ud_name c = None] when the character has no name. *)
Record unicodedata := mk_unicodedata {
  ud_name : Z -> option string;
  ud_category : Z -> string;
}.

(** ** Exceptions, state and the monad *)

Inductive exn :=
  | OSError (msg : string)
  | RuntimeError (msg : string)
  | TypeError
  | ValueError
  | UnicodeDecodeError
  | UnboundLocalError
  | AttributeError
  | OverflowError
  | IndexError.

(** [except ValueError] also catches its subclass [UnicodeDecodeError]. *)
Definition is_ValueError (e : exn) : bool :=
  match e with
  | ValueError | UnicodeDecodeError => true
  | _ => false
  end.

Definition is_UnicodeDecodeError (e : exn) : bool :=
  match e with
  | UnicodeDecodeError => true
  | _ => false
  end.

Inductive result (A : Type) :=
  | Ok (a : A)
  | Raise (e : exn).
Arguments Ok {A}.
Arguments Raise {A}.

(** The functions that keep their resolved symbol in a [ptr] attribute. *)
Inductive func :=
  | f_get_ile_errno | f_iconv_open | f_iconv_close | f_iconv
  | f_get_encoding_scheme.

#[global] Instance func_eq_dec : EqDecision func.
Proof. solve_decision. Defined.

Definition func_index (f : func) : nat :=
  match f with
  | f_get_ile_errno => 0 | f_iconv_open => 1 | f_iconv_close => 2
  | f_iconv => 3 | f_get_encoding_scheme => 4
  end%nat.

Definition func_of_index (n : nat) : func :=
  match n with
  | 0 => f_get_ile_errno | 1 => f_iconv_open | 2 => f_iconv_close
  | 3 => f_iconv | _ => f_get_encoding_scheme
  end%nat.

#[global] Instance func_countable : Countable func.
Proof.
  apply (inj_countable' func_index func_of_index).
  intros f. destruct f; reflexivity.
Defined.

(** One entry of the log of system calls: the call and what it answered. *)
Inductive event :=
  | EvILELOADX (obj : string) (flags actgrp : Z)
  | EvILESYMX (actgrp : Z) (symbol : string) (rc : Z) (ptr : ILEPointer)
  | EvRSLOBJ2 (ty : Z) (name lib : string) (rc : Z) (ptr : ILEPointer)
  | EvILECALLX (ptr : ILEPointer) (args : arglist) (signature : list Z)
      (result_type flags : Z) (eff : ilecall_effect)
  | EvPGMCALL (ptr : ILEPointer) (args : qtqgesp_args) (flags : Z)
      (eff : pgmcall_effect)
  | EvSETSPP (buf : buffer) (ptr : ILEPointer)
  | EvMEMCPY_WT2 (dst src : ILEPointer) (n : Z) (copied : bytes).

Section Program.

Context {F : Type}.
Variable L : libc F.
Variable U : unicodedata.

Record state := mkState {
  foreign : F;                          (* the ILE side *)
  ptr_attr : gmap func ILEPointer;      (* the [ptr] function attributes *)
  trace : list event;                   (* system calls so far, oldest first *)
  stdout : pystr;                       (* what was printed *)
  fs : gmap pystr pystr;                (* files written, by name *)
}.

Definition M (A : Type) : Type := state -> result A * state.

Definition ret {A} (a : A) : M A := fun s => (Ok a, s).
Definition raise {A} (e : exn) : M A := fun s => (Raise e, s).
Definition bind {A B} (m : M A) (k : A -> M B) : M B :=
  fun s => match m s with
           | (Ok a, s') => k a s'
           | (Raise e, s') => (Raise e, s')
           end.

(** [try: m except <matching h>: h e]; a non-matching exception goes on. *)
Definition try_except {A} (m : M A) (h : exn -> option (M A)) : M A :=
  fun s => match m s with
           | (Ok a, s') => (Ok a, s')
           | (Raise e, s') =>
               match h e with
               | Some k => k s'
               | None => (Raise e, s')
               end
           end.

(** [for x in l: body], with the loop-carried variables in [acc]. *)
Fixpoint for_each {A S} (l : list A) (body : A -> S -> M S) (acc : S) : M S :=
  match l with
  | [] => ret acc
  | x :: l' => bind (body x acc) (for_each l' body)
  end.

Local Notation "'let*' x ':=' m 'in' k" := (bind m (fun x => k))
  (at level 10, x name, m at level 100, k at level 200).
Local Notation "'do' m 'then' k" := (bind m (fun _ => k))
  (at level 10, m at level 100, k at level 200).

(** *** Primitive steps *)

(** A system call: it acts on the foreign state and is logged with its
    answer. *)
Definition syscall {A} (call : F -> A * F) (log : A -> event) : M A :=
  fun s => let (a, f') := call (foreign s) in
           (Ok a, mkState f' (ptr_attr s) (trace s ++ [log a])
                    (stdout s) (fs s)).

Definition ilecall (ptr : ILEPointer) (args : arglist) (signature : list Z)
    (result_type flags : Z) : M ilecall_effect :=
  syscall (_ILECALLX L ptr args signature result_type flags)
          (EvILECALLX ptr args signature result_type flags).

Definition setspp (buf : buffer) : M ILEPointer :=
  syscall (_SETSPP L buf) (EvSETSPP buf).

(** [f.ptr]: [AttributeError] while the attribute is not set. *)
Definition getattr_ptr (f : func) : M ILEPointer :=
  fun s => match ptr_attr s !! f with
           | Some p => (Ok p, s)
           | None => (Raise AttributeError, s)
           end.

(** [f.ptr = p] *)
Definition setattr_ptr (f : func) (p : ILEPointer) : M unit :=
  fun s => (Ok tt, mkState (foreign s) (<[f := p]> (ptr_attr s))
                     (trace s) (stdout s) (fs s)).

(** [print(t)] *)
Definition print (t : pystr) : M unit :=
  fun s => (Ok tt, mkState (foreign s) (ptr_attr s) (trace s)
                     (stdout s ++ t ++ [10]) (fs s)).

(** [open(name, 'w')]: the file is created or emptied. *)
Definition open_w (name : pystr) : M unit :=
  fun s => (Ok tt, mkState (foreign s) (ptr_attr s) (trace s) (stdout s)
                     (<[name := []]> (fs s))).

(** [print(t, file=file)] *)
Definition print_to (file : pystr) (t : pystr) : M unit :=
  fun s => (Ok tt, mkState (foreign s) (ptr_attr s) (trace s) (stdout s)
                     (<[file := default [] (fs s !! file) ++ t ++ [10]]> (fs s))).

(** [n.to_bytes(size, byteorder='big')] *)
Definition to_bytes (n : Z) (size : nat) : M bytes :=
  if (0 <=? n) && (n <? 256 ^ Z.of_nat size) then ret (be_bytes size n)
  else raise OverflowError.

(** [int(s, 16)] on a string of hexadecimal digits. *)
Definition hex_value (c : Z) : option Z :=
  if (48 <=? c) && (c <=? 57) then Some (c - 48)
  else if (97 <=? c) && (c <=? 102) then Some (c - 87)
  else if (65 <=? c) && (c <=? 70) then Some (c - 55)
  else None.

Fixpoint int_hex_aux (s : pystr) (acc : Z) : option Z :=
  match s with
  | [] => Some acc
  | c :: s' => match hex_value c with
               | Some d => int_hex_aux s' (acc * 16 + d)
               | None => None
               end
  end.

Definition int_hex (s : pystr) : M Z :=
  match s with
  | [] => raise ValueError
  | _ => match int_hex_aux s 0 with
         | Some n => ret n
         | None => raise ValueError
         end
  end.

(** [l[i] = v], with Python's negative indices and [IndexError]. *)
Definition setitem {A} (l : list A) (i : Z) (v : A) : M (list A) :=
  let n := Z.of_nat (length l) in
  if (0 <=? i) && (i <? n) then ret (<[Z.to_nat i := v]> l)
  else if (- n <=? i) && (i <? 0) then ret (<[Z.to_nat (n + i) := v]> l)
  else raise IndexError.

(** [l[i]] *)
Definition getitem {A} (l : list A) (i : Z) : M A :=
  let n := Z.of_nat (length l) in
  match l !! Z.to_nat (if i <? 0 then n + i else i) with
  | Some v => if (- n <=? i) then ret v else raise IndexError
  | None => raise IndexError
  end.

(** [unicodedata.name(u)]: the argument must be one character; a
    character without a name is a [ValueError]. *)
Definition unicodedata_name (u : pystr) : M pystr :=
  match u with
  | [c] => match ud_name U c with
           | Some n => ret (str n)
           | None => raise ValueError
           end
  | _ => raise TypeError
  end.

(** [unicodedata.category(u)] *)
Definition unicodedata_category (u : pystr) : M pystr :=
  match u with
  | [c] => ret (str (ud_category U c))
  | _ => raise TypeError
  end.

(** [ord(u)] *)
Definition ord (u : pystr) : M Z :=
  match u with
  | [c] => ret c
  | _ => raise TypeError
  end.

(** Reading a local variable that may not be bound yet. *)
Definition local {A} (v : option A) : M A :=
  match v with
  | Some a => ret a
  | None => raise UnboundLocalError
  end.

(** *** Symbol resolution *)

Definition load_symbol (library srvpgm symbol : string) : M ILEPointer :=
  let obj := (library ++ "/" ++ srvpgm)%string in
  let* actgrp := syscall (_ILELOADX L obj ILELOAD_LIBOBJ)
                    (EvILELOADX obj ILELOAD_LIBOBJ) in
  if c_ulonglong actgrp =? 0xffffffffffffffff then
    raise (OSError (obj ++ " not found"))
  else
    let* r := syscall (_ILESYMX L (c_ulonglong actgrp) symbol)
                 (fun r => EvILESYMX (c_ulonglong actgrp) symbol (fst r) (snd r)) in
    if negb (c_int (fst r) =? ILESYM_PROCEDURE) then
      raise (OSError (symbol ++ " procedure not found in " ++ obj))
    else ret (snd r).

(** The lazy attribute of the bridge functions:
    [try: ptr = f.ptr / except AttributeError: ptr = f.ptr = resolve()]. *)
Definition lazy_ptr (f : func) (resolve : M ILEPointer) : M ILEPointer :=
  try_except (getattr_ptr f)
    (fun e => match e with
              | AttributeError =>
                  Some (let* p := resolve in do setattr_ptr f p then ret p)
              | _ => None
              end).

(** The resolution of the QTQGESP program in [get_encoding_scheme], whose
    [except AttributeError] block stores the pointer once [_RSLOBJ2]
    answered zero. *)
Definition resolve_qtqgesp : M ILEPointer :=
  let* r := syscall (_RSLOBJ2 L RSLOBJ_TS_PGM "QTQGESP" "QSYS")
               (fun r => EvRSLOBJ2 RSLOBJ_TS_PGM "QTQGESP" "QSYS" (fst r) (snd r)) in
  if negb (c_int (fst r) =? 0) then raise (OSError "Error resolving QTQGESP")
  else ret (snd r).

(** *** The bridge functions *)

Definition get_ile_errno : M Z :=
  let* ptr := lazy_ptr f_get_ile_errno (load_symbol "QSYS" "QC2UTIL1" "__errno") in
  let signature := [ARG_END] in
  let* eff := ilecall ptr ILEArglistBase signature 16 ILECALL_EXCP_NOSIGNAL in
  if negb (c_int (ile_rc eff) =? 0) then
    raise (RuntimeError "Failed to call QtqIconvOpen with _ILECALL")
  else
    let errnop := ile_result_ptr eff in
    let errno_buf0 := zero_buffer 4 in
    let* errnop_pase := setspp errno_buf in
    let* copied := syscall (_MEMCPY_WT2 L errnop_pase errnop 4)
                      (EvMEMCPY_WT2 errnop_pase errnop 4) in
    let errno_buf1 := store errno_buf0 (take 4 copied) in
    int_hex (bytes_hex errno_buf1).

Definition iconv_open (out_ccsid in_ccsid : Z) : M iconv_t :=
  let* ptr := lazy_ptr f_iconv_open (load_symbol "QSYS" "QTQICONV" "QtqIconvOpen") in
  let to_code := mk_qtqcode_t (c_int out_ccsid) 0 0 0 0 0 in
  let from_code := mk_qtqcode_t (c_int in_ccsid) 0 0 0 0 0 in
  let signature := [ARG_MEMPTR; ARG_MEMPTR; ARG_END] in
  let* eff := ilecall ptr (IconvOpenArglist to_code from_code) signature
                 sizeof_iconv_t ILECALL_EXCP_NOSIGNAL in
  if negb (c_int (ile_rc eff) =? 0) then
    raise (RuntimeError "Failed to call QtqIconvOpen with _ILECALL")
  else ret (ile_result_cd eff).

Definition iconv_close (cd : iconv_t) : M Z :=
  let* ptr := lazy_ptr f_iconv_close (load_symbol "QSYS" "QTQICONV" "iconv_close") in
  let signature := [sizeof_iconv_t; ARG_END] in
  let* eff := ilecall ptr (IconvCloseArglist cd) signature RESULT_INT32
                 ILECALL_EXCP_NOSIGNAL in
  if negb (c_int (ile_rc eff) =? 0) then
    raise (RuntimeError "Failed to call iconv_close with _ILECALL")
  else ret (c_ulonglong (ile_result_hi eff)).

Definition iconv (cd : iconv_t) (data : bytes) : M (Z * bytes) :=
  let* ptr := lazy_ptr f_iconv (load_symbol "QSYS" "QTQICONV" "iconv") in
  let in_len := c_uint (Z.of_nat (length data)) in
  let in_buf := data ++ [x00] in
  let* in_ptr := setspp in_buf_ in
  let out_len := c_uint 8 in
  let out_buf := zero_buffer (Z.to_nat out_len) in
  let* out_ptr := setspp out_buf_ in
  let signature :=
    [sizeof_iconv_t; ARG_MEMPTR; ARG_MEMPTR; ARG_MEMPTR; ARG_MEMPTR; ARG_END] in
  let* eff := ilecall ptr (IconvArglist cd in_ptr in_buf in_len out_ptr out_buf out_len)
                 signature RESULT_UINT32 0 in
  if negb (c_int (ile_rc eff) =? 0) then
    raise (RuntimeError "Failed to call iconv with _ILECALL")
  else
    let out_buf1 := store out_buf (ile_out_buf eff) in
    let out_len1 := c_uint (ile_out_len eff) in
    let out_size := Z.of_nat (length out_buf1) - out_len1 in
    ret (c_ulonglong (ile_result_hi eff), slice_to out_buf1 out_size).

(** [any(fb)] on the three-element feedback array. *)
Definition any_fb (fb : Z * Z * Z) : bool :=
  let '(a, b, c) := fb in
  negb (c_int a =? 0) || negb (c_int b =? 0) || negb (c_int c =? 0).

Definition get_encoding_scheme (ccsid : Z) : M Z :=
  let* ptr := lazy_ptr f_get_encoding_scheme resolve_qtqgesp in
  let args := mk_qtqgesp_args (c_int ccsid) (c_int 2) (c_int 0)
                              0 (0, 0) (0, 0, 0) in
  let* eff := syscall (_PGMCALL L ptr args PGMCALL_EXCP_NOSIGNAL)
                 (EvPGMCALL ptr args PGMCALL_EXCP_NOSIGNAL) in
  if negb (c_int (pgm_rc eff) =? 0) then raise (OSError "_PGMCALL")
  else if any_fb (pgm_fb eff) then ret (-1)
  else ret (c_int (pgm_es eff)).

(** *** The table builder *)

(** A table entry is [None] until the loop stores the converted bytes. *)
Definition table := list (option bytes).

(** The body of the loop of [dump_conv_table]. *)
Definition dump_conv_table_step (cd : iconv_t) (cp_size : nat) (cp : Z)
    (tbl : table) : M table :=
  let* data := to_bytes cp cp_size in
  let* rc_out := iconv cd data in
  setitem tbl cp (Some (snd rc_out)).

Definition dump_conv_table (ccsid es : Z) : M (option table) :=
  let* cd := iconv_open 1200 ccsid in
  if c_int (rtn cd) =? -1 then
    do print (str "Couldn't open converter") then ret None
  else
    let '(max_cp, cp_size) :=
      if es =? 0x1100 then (256, 1%nat) else (65536, 2%nat) in
    let table0 : table := replicate (Z.to_nat max_cp) None in
    let* table1 := for_each (range 0 max_cp)
                            (dump_conv_table_step cd cp_size) table0 in
    do iconv_close cd then
    ret (Some table1).

(** *** The report writers *)

(** [len(t)]; [None] has no length. *)
Definition len {A} (t : option (list A)) : M Z :=
  match t with
  | Some l => ret (Z.of_nat (length l))
  | None => raise TypeError
  end.

(** [out.decode('utf-16be')]; [None] has no such method. *)
Definition decode_utf_16be (out : option bytes) : M pystr :=
  match out with
  | Some bs => match utf_16be_decode bs with
               | Some u => ret u
               | None => raise UnicodeDecodeError
               end
  | None => raise AttributeError
  end.

(** [d.get(k, dflt)] *)
Definition dict_get (d : list (pystr * pystr)) (k dflt : pystr) : pystr :=
  match List.find (fun kv => bool_decide (fst kv = k)) d with
  | Some kv => snd kv
  | None => dflt
  end.

(** The two handlers of the [try] in [write_conv_txt], in the order of the
    source; [u] is the local variable as the handler finds it. *)
Definition name_handlers (u : option pystr) (e : exn) : option (M pystr) :=
  if is_ValueError e then
    Some (let* u1 := local u in
          let* category := unicodedata_category u1 in
          if bool_decide (category = str "Cc") then ret (str "<control>")
          else ret (str "<unknown>"))
  else if is_UnicodeDecodeError e then Some (ret (str "<error>"))
  else None.

(** One iteration of the loop of [write_conv_txt]; the local [u] survives
    from one iteration to the next. *)
Definition write_conv_txt_entry (width : nat) (file : pystr)
    (cp_out : Z * option bytes) (u : option pystr) : M (option pystr) :=
  let '(cp, out) := cp_out in
  match out with
  | None => raise AttributeError
  | Some bs =>
      let* u_name :=
        match utf_16be_decode bs with
        | None =>
            let* name := try_except (raise UnicodeDecodeError)
                                    (name_handlers u) in
            ret (u, name)
        | Some u1 =>
            let* name := try_except (unicodedata_name u1)
                                    (name_handlers (Some u1)) in
            ret (Some u1, name)
        end in
      do print_to file (str "0x" ++ fmt_x width cp ++ [9] ++ str "0x"
                          ++ bytes_hex bs ++ [9] ++ snd u_name) then
      ret (fst u_name)
  end.

(** [enumerate(l)] *)
Definition enumerate {A} (l : list A) : list (Z * A) :=
  zip (range 0 (Z.of_nat (length l))) l.

Definition write_conv_txt (tbl : option table) (file : pystr) : M unit :=
  let* n := len tbl in
  let width := if n =? 256 then 2%nat else 4%nat in
  do for_each (enumerate (default [] tbl)) (write_conv_txt_entry width file)
              None then
  ret tt.

Definition CONTROL_CODES : list (pystr * pystr) := [
   ([0x0000], str "NUL"); ([0x0001], str "SOH"); ([0x0002], str "STX");
   ([0x0003], str "ETX"); ([0x0004], str "EOT"); ([0x0005], str "ENQ");
   ([0x0006], str "ACK"); ([0x0007], str "BEL"); ([0x0008], str "BS");
   ([0x0009], str "HT"); ([0x000a], str "LF"); ([0x000b], str "VT");
   ([0x000c], str "FF"); ([0x000d], str "CR"); ([0x000e], str "SO");
   ([0x000f], str "SI"); ([0x0010], str "DLE"); ([0x0011], str "DC1");
   ([0x0012], str "DC2"); ([0x0013], str "DC3"); ([0x0014], str "DC4");
   ([0x0015], str "NAK"); ([0x0016], str "SYN"); ([0x0017], str "ETB");
   ([0x0018], str "CAN"); ([0x0019], str "EM"); ([0x001a], str "SUB");
   ([0x001b], str "ESC"); ([0x001c], str "FS"); ([0x001d], str "GS");
   ([0x001e], str "RS"); ([0x001f], str "US"); ([0x007f], str "DEL");
   ([0x0080], str "PAD"); ([0x0081], str "HOP"); ([0x0082], str "BPH");
   ([0x0083], str "NBH"); ([0x0084], str "IND"); ([0x0085], str "NEL");
   ([0x0086], str "SSA"); ([0x0087], str "ESA"); ([0x0088], str "HTS");
   ([0x0089], str "HTJ"); ([0x008a], str "VTS"); ([0x008b], str "PLD");
   ([0x008c], str "PLU"); ([0x008d], str "RI"); ([0x008e], str "SS2");
   ([0x008f], str "SS3"); ([0x0090], str "DCS"); ([0x0091], str "PU1");
   ([0x0092], str "PU2"); ([0x0093], str "STS"); ([0x0094], str "CCH");
   ([0x0095], str "MW"); ([0x0096], str "SPA"); ([0x0097], str "EPA");
   ([0x0098], str "SOS"); ([0x0099], str "SGCI"); ([0x009a], str "SCI");
   ([0x009b], str "CSI"); ([0x009c], str "ST"); ([0x009d], str "OSC");
   ([0x009e], str "PM"); ([0x009f], str "APC") ].

Definition SPACE : list (pystr * pystr) := [
   ([0x0020], str "SP"); ([0x00a0], str "NBSP"); ([0x00ad], str "SHY");
   ([0x202f], str "NNBSP"); ([0x205f], str "MMSP") ].

Definition CATEGORY_CLASS : list (pystr * pystr) := [
   (str "Cc", str "control-code"); (str "Zs", str "space-separator");
   (str "Sc", str "symbol"); (str "Sk", str "symbol");
   (str "Sm", str "symbol"); (str "So", str "symbol");
   (str "Pc", str "punctuation"); (str "Pd", str "punctuation");
   (str "Pe", str "punctuation"); (str "Pf", str "punctuation");
   (str "Pi", str "punctuation"); (str "Po", str "punctuation");
   (str "Ps", str "punctuation"); (str "Nd", str "number");
   (str "Nl", str "number"); (str "No", str "number") ].

Definition INVARIANTS : list pystr :=
  map (fun c => [c]) (range 0x41 0x5b ++ range 0x61 0x7b ++ range 0x30 0x3a)
  ++ [[43]; [60]; [61]; [62]; [37]; [38]; [42]; [34]; [39]; [40];
      [41]; [44]; [95]; [45]; [46]; [47]; [58]; [59]; [63]].

Definition html_head : pystr :=
  str "
<style>
#ebcdic-table {
    text-align: center;
    font-size: large;
    border-collapse: collapse;
    color: black;
}
th {
    font-weight: 700;
    width: 3em;
    background-color: #EEEEEE;
}
.th {
    font-weight: 700;
    width: 1.6em;
    background-color: #EEEEEE;
}
.row {
    height: 4em;
}
.glyph {
    line-height: 1.6;
}
.control-code {
    font-variant: small-caps;
    font-family: monospace;
    background-color: #F0FFF0;
}
.space-separator {
    font-variant: small-caps;
    font-family: monospace;
    background-color: #F0FFF0;
}
.symbol {
    background-color: #FFFFD7;
}
.punctuation {
    background-color: #F4F4FF;
}
.number {
    background-color: #FFF4F4;
}
.normal {
    background-color: #FFFFFF;
}
.invariant {
    border: 2px solid;
}
</style>
<table id="
  ++ [34] ++ str "ebcdic-table" ++ [34] ++ str " border=" ++ [34] ++ str "1"
  ++ [34] ++ str " frame=" ++ [34] ++ str "box" ++ [34] ++ str ">
".

Definition table_head : pystr :=
  str "
<tr>
    <th class='th'></th>
    <th>_0</th><th>_1</th><th>_2</th><th>_3</th>
    <th>_4</th><th>_5</th><th>_6</th><th>_7</th>
    <th>_8</th><th>_9</th><th>_A</th><th>_B</th>
    <th>_C</th><th>_D</th><th>_E</th><th>_F</th>
</tr>
".

Definition html_tail : pystr :=
  str "
</table>
".

(** One cell of the grid: the body of the inner loop for [j > 0]. *)
Definition write_conv_html_cell (tbl : table) (file : pystr) (i j : Z)
    : M unit :=
  let j1 := j - 1 in
  let cp := i * 16 + j1 in
  let* out := getitem tbl cp in
  let* u := decode_utf_16be out in
  let* category := unicodedata_category u in
  let span n := str "<span class='glyph'>" ++ n ++ str "</span>" in
  let x :=
    if bool_decide (u = [0xfffd]) then []
    else if bool_decide (category = str "Cc") then
      span (dict_get CONTROL_CODES u [])
    else if bool_decide (category = str "Zs") then span (dict_get SPACE u [])
    else span u in
  let* o := ord u in
  let x1 := x ++ str "<br><small>" ++ fmt_X 4 o ++ str "</small>" in
  let cls := dict_get CATEGORY_CLASS category (str "normal") in
  let cls1 := if bool_decide (u ∈ INVARIANTS) then cls ++ str " invariant"
              else cls in
  print_to file (str "<td class=" ++ [34] ++ cls1 ++ [34] ++ str ">" ++ x1
                   ++ str "</td>").

Definition write_conv_html (ccsid : Z) (tbl : option table) (file : pystr)
    : M unit :=
  let* n := len tbl in
  if negb (n =? 256) then ret tt
  else
    do print_to file html_head then
    do print_to file table_head then
    do for_each (range 0 16)
         (fun i (_ : unit) =>
            do print_to file (str "<tr class='row'>") then
            do for_each (range 0 17)
                 (fun j (_ : unit) =>
                    if j =? 0 then
                      print_to file (str "<td class='th'>_" ++ fmt_X 0 i
                                       ++ str "</td>")
                    else write_conv_html_cell (default [] tbl) file i j)
                 tt then
            print_to file ([10] ++ str "</tr>"))
         tt then
    do print_to file table_head then
    print_to file html_tail.

(** *** The driver *)

(** The part of the loop body that follows the two [continue] tests. *)
Definition report (ccsid es : Z) : M unit :=
  do print (str "ccsid: " ++ fmt_d 0 ccsid ++ str " " ++ fmt_x 0 es) then
  let* tbl := dump_conv_table ccsid es in
  let txt := str "IBM-" ++ fmt_d 3 ccsid ++ str ".txt" in
  do open_w txt then
  do write_conv_txt tbl txt then
  if negb (es =? 0x1200) then
    let html := str "IBM-" ++ fmt_d 3 ccsid ++ str ".html" in
    do open_w html then
    write_conv_html ccsid tbl html
  else ret tt.

(** The body of the module-level loop, for one CCSID. *)
Definition driver_body (ccsid : Z) : M unit :=
  let* es := get_encoding_scheme ccsid in
  if negb ((es =? 0x1100) || (es =? 0x1200)) then ret tt
  else if (ccsid =? 16684) || (ccsid =? 57777) then ret tt
  else report ccsid es.

(** The loop over a range of CCSIDs; no statement of it catches anything. *)
Definition driver (ccsids : list Z) : M unit :=
  for_each ccsids (fun ccsid (_ : unit) => driver_body ccsid) tt.

(** [for ccsid in range(1, 65535)] *)
Definition main : M unit := driver (range 1 65535).

(** ** Vocabulary of the statements *)

(** The system calls made between two states of one run. *)
Definition new_events (s s' : state) : list event :=
  drop (length (trace s)) (trace s').

(** Loading an object or resolving a symbol or a program. *)
Definition is_resolution (ev : event) : bool :=
  match ev with
  | EvILELOADX _ _ _ | EvILESYMX _ _ _ _ | EvRSLOBJ2 _ _ _ _ _ => true
  | _ => false
  end.

(** The handle a call through [_ILECALLX] or [_PGMCALL] was made with. *)
Definition call_ptr (ev : event) : option ILEPointer :=
  match ev with
  | EvILECALLX ptr _ _ _ _ _ | EvPGMCALL ptr _ _ _ => Some ptr
  | _ => None
  end.

(** A call of the foreign [iconv], resp. [iconv_close]. *)
Definition is_convert_call (ev : event) : bool :=
  match ev with
  | EvILECALLX _ (IconvArglist _ _ _ _ _ _ _) _ _ _ _ => true
  | _ => false
  end.

Definition is_close_call (ev : event) : bool :=
  match ev with
  | EvILECALLX _ (IconvCloseArglist _) _ _ _ _ => true
  | _ => false
  end.

(** The CCSID a [_PGMCALL] of QTQGESP asked about. *)
Definition probed_ccsid (ev : event) : option Z :=
  match ev with
  | EvPGMCALL _ args _ _ => Some (ga_ccsid1 args)
  | _ => None
  end.

(** A call through [_ILECALLX] that returned nonzero, resp. zero. *)
Definition failed_call (ev : event) : Prop :=
  match ev with
  | EvILECALLX _ _ _ _ _ eff => c_int (ile_rc eff) <> 0
  | _ => False
  end.

Definition ok_call (ev : event) : Prop :=
  match ev with
  | EvILECALLX _ _ _ _ _ eff => c_int (ile_rc eff) = 0
  | _ => False
  end.

Definition raises_RuntimeError {A} (r : result A) : Prop :=
  exists msg, r = Raise (RuntimeError msg).

Definition returns {A} (r : result A) : Prop := exists v, r = Ok v.

(** The outcome of a function that makes at most one call through
    [_ILECALLX]. *)
Definition single_call_outcome {A} (s : state) (r : result A) (s' : state)
    : Prop :=
  forall ev, ev ∈ new_events s s' ->
    (failed_call ev -> raises_RuntimeError r) /\ (ok_call ev -> returns r).

Definition all_calls_ok (evs : list event) : Prop :=
  forall ev, ev ∈ evs -> ~ failed_call ev.

(** [surfaces m]: a run of [m] that made a failed call through [_ILECALLX]
    ended by raising [RuntimeError]. *)
Definition surfaced {A} (s : state) (r : result A) (s' : state) : Prop :=
  exists evs, trace s' = trace s ++ evs /\
    match r with
    | Ok _ => all_calls_ok evs
    | Raise e => all_calls_ok evs \/ exists msg, e = RuntimeError msg
    end.

Definition surfaces {A} (m : M A) : Prop := forall s, surfaced s (m s).1 (m s).2.

(** The operations that keep a lazily resolved symbol: the function whose
    [ptr] attribute holds it, the resolution its [except AttributeError]
    block runs, and the operation itself. *)
Inductive bridge_op : func -> M ILEPointer -> forall A, M A -> Prop :=
  | bridge_get_ile_errno :
      bridge_op f_get_ile_errno (load_symbol "QSYS" "QC2UTIL1" "__errno")
                Z get_ile_errno
  | bridge_iconv_open out_ccsid in_ccsid :
      bridge_op f_iconv_open (load_symbol "QSYS" "QTQICONV" "QtqIconvOpen")
                iconv_t (iconv_open out_ccsid in_ccsid)
  | bridge_iconv_close cd :
      bridge_op f_iconv_close (load_symbol "QSYS" "QTQICONV" "iconv_close")
                Z (iconv_close cd)
  | bridge_iconv cd data :
      bridge_op f_iconv (load_symbol "QSYS" "QTQICONV" "iconv")
                (Z * bytes) (iconv cd data)
  | bridge_get_encoding_scheme ccsid :
      bridge_op f_get_encoding_scheme resolve_qtqgesp
                Z (get_encoding_scheme ccsid).

(** What the part of a bridge function that follows the resolution does
    with the handle [p] it is given: it leaves the attributes alone, makes
    no system call of resolution, and calls through [p] and nothing else. *)
Definition uses_handle {A} (body : ILEPointer -> M A) : Prop :=
  forall p s,
    ptr_attr (body p s).2 = ptr_attr s /\
    exists evs,
      trace (body p s).2 = trace s ++ evs /\
      Forall (fun ev => is_resolution ev = false /\
                        forall q, call_ptr ev = Some q -> q = p) evs /\
      exists ev, ev ∈ evs /\ call_ptr ev = Some p.

(** What a resolution does: system calls of resolution only, at least one,
    and no access to the attributes. *)
Definition resolves (resolve : M ILEPointer) : Prop :=
  forall s,
    ptr_attr (resolve s).2 = ptr_attr s /\
    exists ev evs,
      trace (resolve s).2 = trace s ++ ev :: evs /\ is_resolution ev = true.

(** [converts cd w cps s outs s']: from [s], the code points [cps] are
    converted one after the other, each as its [w]-byte big-endian
    representation, by calls of [iconv] that all return; [outs] are the
    outputs in that order and [s'] is the state after the last call. *)
Inductive converts (cd : iconv_t) (w : nat)
    : list Z -> state -> list bytes -> state -> Prop :=
  | converts_nil s : converts cd w [] s [] s
  | converts_cons cp cps data rc out outs s s1 s2 :
      length data = w ->
      be_uint data = cp ->
      iconv cd data s = (Ok (rc, out), s1) ->
      converts cd w cps s1 outs s2 ->
      converts cd w (cp :: cps) s (out :: outs) s2.

(** [wp m Q s]: running [m] from [s] ends in a result and a state that
    satisfy [Q]. *)
Definition wp {A} (m : M A) (Q : result A -> state -> Prop) (s : state)
    : Prop :=
  Q (fst (m s)) (snd (m s)).

(** ** Vocabulary of the further statements *)

(** The exceptions of the bridge: a failed resolution or a failed call. *)
Definition bridge_error (e : exn) : Prop :=
  match e with
  | OSError _ | RuntimeError _ => True
  | _ => False
  end.

(** A call through [_ILECALLX], by the procedure it is for and what it
    hands over: the option records and the descriptor stored for an open,
    the descriptor, the input buffer and the two lengths for a conversion,
    the descriptor for a close. *)
Inductive call :=
  | CErrno
  | COpen (to_code from_code : qtqcode_t) (cd : iconv_t)
  | CConv (cd : iconv_t) (in_buf : bytes) (in_len out_len : Z)
  | CClose (cd : iconv_t).

Definition call_of (ev : event) : option call :=
  match ev with
  | EvILECALLX _ args _ _ _ eff =>
      Some match args with
           | ILEArglistBase => CErrno
           | IconvOpenArglist to_code from_code =>
               COpen to_code from_code (ile_result_cd eff)
           | IconvCloseArglist cd => CClose cd
           | IconvArglist cd _ in_buf in_len _ _ out_len =>
               CConv cd in_buf in_len out_len
           end
  | _ => None
  end.

(** The calls [dump_conv_table] makes on the descriptor [cd] once it is
    open: one conversion per code point, in order, then the close. *)
Definition conversion_script (cd : iconv_t) (w : nat) (N : Z) : list call :=
  map (fun cp => CConv cd (be_bytes w cp ++ [x00]) (Z.of_nat w) 8)
      (range 0 N)
  ++ [CClose cd].

(** [appends_to file s s']: from [s] to [s'] nothing has changed but the
    content of [file], which has only grown at its end. *)
Definition appends_to (file : pystr) (s s' : state) : Prop :=
  foreign s' = foreign s /\ ptr_attr s' = ptr_attr s /\
  trace s' = trace s /\ stdout s' = stdout s /\
  (forall g, g <> file -> fs s' !! g = fs s !! g) /\
  exists added,
    default [] (fs s' !! file) = default [] (fs s !! file) ++ added.

Definition appender {A} (file : pystr) (m : M A) : Prop :=
  forall s, appends_to file s (m s).2.

(** The name [write_conv_txt] prints for the character [c]. *)
Definition display_name (c : Z) : pystr :=
  match ud_name U c with
  | Some n => str n
  | None => if bool_decide (str (ud_category U c) = str "Cc")
            then str "<control>" else str "<unknown>"
  end.

(** The line [write_conv_txt] prints for the code point [cp] whose entry
    [bs] decodes to the character [c], with its end of line. *)
Definition txt_line (width : nat) (cp : Z) (bs : bytes) (c : Z) : pystr :=
  str "0x" ++ fmt_x width cp ++ [9] ++ str "0x" ++ bytes_hex bs ++ [9]
  ++ display_name c ++ [10].


(** The names of the two reports of a CCSID. *)
Definition txt_file (ccsid : Z) : pystr :=
  str "IBM-" ++ fmt_d 3 ccsid ++ str ".txt".

Definition html_file (ccsid : Z) : pystr :=
  str "IBM-" ++ fmt_d 3 ccsid ++ str ".html".

(** [footprint P s s']: from [s] to [s'] the files whose name is not in
    [P] are as they were, and the standard output has only grown. *)
Definition footprint (P : pystr -> Prop) (s s' : state) : Prop :=
  (forall g, ~ P g -> fs s' !! g = fs s !! g) /\
  exists out, stdout s' = stdout s ++ out.

Definition within {A} (P : pystr -> Prop) (m : M A) : Prop :=
  forall s, footprint P s (m s).2.


(** [emits P m]: a run of [m] only adds system calls to the trace, and
    those it adds all satisfy [P]. *)
Definition emits {A} (P : event -> Prop) (m : M A) : Prop :=
  forall s, exists evs, trace (m s).2 = trace s ++ evs /\ Forall P evs.

(** The system calls of the report of [ccsid]: no probe of an encoding
    scheme, and no open of a converter but from [ccsid] to UTF-16. *)
Definition report_event (ccsid : Z) (ev : event) : Prop :=
  probed_ccsid ev = None /\
  forall to_code from_code cd,
    call_of ev = Some (COpen to_code from_code cd) ->
    to_code = mk_qtqcode_t 1200 0 0 0 0 0 /\
    from_code = mk_qtqcode_t (c_int ccsid) 0 0 0 0 0.

(** The function a symbol or program lookup is made for. *)
Definition lookup_of (ev : event) : option func :=
  match ev with
  | EvILESYMX _ symbol _ _ =>
      if String.eqb symbol "__errno" then Some f_get_ile_errno
      else if String.eqb symbol "QtqIconvOpen" then Some f_iconv_open
      else if String.eqb symbol "iconv_close" then Some f_iconv_close
      else if String.eqb symbol "iconv" then Some f_iconv
      else None
  | EvRSLOBJ2 _ name _ _ _ =>
      if String.eqb name "QTQGESP" then Some f_get_encoding_scheme else None
  | _ => None
  end.

(** How many lookups for [f] there are among [evs]. *)
Definition lookups (f : func) (evs : list event) : nat :=
  length (List.filter (fun ev => bool_decide (lookup_of ev = Some f)) evs).

(** [resolves_once m]: in a run of [m] there is at most one lookup for
    each function, none for a function whose pointer is cached, which stays
    as it is; and a run that made a lookup and returns leaves the pointer
    cached. *)
Definition resolves_once {A} (m : M A) : Prop :=
  forall s, exists evs,
    trace (m s).2 = trace s ++ evs /\
    forall f,
      (lookups f evs <= 1)%nat /\
      (is_Some (ptr_attr s !! f) ->
       lookups f evs = 0%nat /\ ptr_attr (m s).2 !! f = ptr_attr s !! f) /\
      (lookups f evs = 1%nat -> (exists a, (m s).1 = Ok a) ->
       is_Some (ptr_attr (m s).2 !! f)).

End Program.

(** The two digits of [b.hex()] read back as [b]. *)
Definition hex_roundtrip (b : byte) : bool :=
  match fmt_x 2 (Z_of_byte b) with
  | [c1; c2] =>
      match hex_value c1, hex_value c2 with
      | Some d1, Some d2 => d1 * 16 + d2 =? Z_of_byte b
      | _, _ => false
      end
  | _ => false
  end.

Arguments state F : clear implicits.
Arguments M F A : clear implicits.
Arguments mkState {F}.

(** ** A small foreign side to run the script on

    The foreign state counts the load attempts: the first [_ILELOADX] of a
    fresh world fails, every later one succeeds.  QtqIconvOpen refuses
    CCSID 13 in-band ([rtn = -1]) and fails at the call level for CCSID 99;
    [iconv] answers the input widened to two bytes; QTQGESP knows a few
    CCSIDs. *)
Module Toy.

Definition cd0 : iconv_t := mk_iconv_t 0 (replicate 12 0).

Definition effect0 : ilecall_effect :=
  mk_ilecall_effect 0 0 ILEPointer0 cd0 [] 0.

Definition ilecallx (ptr : ILEPointer) (args : arglist) (signature : list Z)
    (result_type flags : Z) (n : nat) : ilecall_effect * nat :=
  match args with
  | ILEArglistBase =>
      (mk_ilecall_effect 0 0 (mkILEPointer 0x8000 0x1000) cd0 [] 0, n)
  | IconvOpenArglist to_code from_code =>
      (mk_ilecall_effect (if ccsid from_code =? 99 then 1 else 0) 0
         ILEPointer0
         (mk_iconv_t (if ccsid from_code =? 13 then -1 else 0)
                     (ccsid from_code :: ccsid to_code :: replicate 10 0))
         [] 0, n)
  | IconvCloseArglist cd => (effect0, n)
  | IconvArglist cd in_ptr in_buf in_len out_ptr out_buf out_len =>
      (mk_ilecall_effect (if in_len =? 3 then 1 else 0) 0 ILEPointer0 cd0
         (if in_len =? 1 then x00 :: take 1 in_buf else take 2 in_buf)
         (out_len - 2), n)
  end.

Definition pgmcall (ptr : ILEPointer) (args : qtqgesp_args) (flags : Z)
    (n : nat) : pgmcall_effect * nat :=
  let c := ga_ccsid1 args in
  (mk_pgmcall_effect
     (if c =? 3 then 1 else 0)
     (if c =? 37 then 0x1100 else if c =? 13 then 0x1100
      else if c =? 300 then 0x1200 else 0x2100)
     (0, 0)
     (if c =? 1 then (0, 1, 0) else (0, 0, 0)), n).

Definition world : libc nat :=
  mk_libc nat
    (fun obj flags n => (if (n =? 0)%nat then 0xffffffffffffffff else 7, S n))
    (fun actgrp symbol n =>
       ((1, mkILEPointer actgrp (Z.of_nat (String.length symbol))), n))
    ilecallx
    (fun ty name lib n =>
       ((if (n =? 0)%nat then 1 else 0, mkILEPointer ty 0x77), S n))
    pgmcall
    (fun buf n =>
       (mkILEPointer 0x4000
          match buf with errno_buf => 1 | in_buf_ => 2 | out_buf_ => 3 end, n))
    (fun dst src len n => ([x00; x00; x0d; x4a], n)).

Definition names : unicodedata :=
  mk_unicodedata
    (fun c => if c =? 0x41 then Some "LATIN CAPITAL LETTER A"%string
              else if c =? 0x1F600 then Some "GRINNING FACE"%string
              else None)
    (fun c => if c <? 32 then "Cc"%string
              else if c =? 0x41 then "Lu"%string else "Cn"%string).

(** A fresh process: nothing resolved, nothing printed; [n] load attempts
    were made on the foreign side. *)
Definition fresh (n : nat) : state nat :=
  mkState n ∅ [] [] ∅.

End Toy.

(** * Properties *)

(** ** Arithmetic and bytes *)

Lemma c_int_range z : - 2 ^ 31 <= c_int z < 2 ^ 31.
Proof. unfold c_int. pose proof (Z.mod_pos_bound (z + 2 ^ 31) (2 ^ 32)). lia. Qed.


Lemma Z_of_byte_range b : 0 <= Z_of_byte b < 256.
Proof.
  unfold Z_of_byte. pose proof (Byte.to_N_bounded b). lia.
Qed.

Lemma byte_of_Z_of_byte b : byte_of_Z (Z_of_byte b) = b.
Proof. destruct b; reflexivity. Qed.

Lemma Z_of_byte_of_Z z : Z_of_byte (byte_of_Z z) = z mod 256.
Proof.
  unfold byte_of_Z, Z_of_byte.
  pose proof (Z.mod_pos_bound z 256 ltac:(lia)) as Hr.
  destruct (Byte.of_N (Z.to_N (z mod 256))) as [b|] eqn:E.
  - apply Byte.to_of_N in E. rewrite E. lia.
  - apply Byte.of_N_None_iff in E. lia.
Qed.

Lemma be_uint_app bs b : be_uint (bs ++ [b]) = be_uint bs * 256 + Z_of_byte b.
Proof. unfold be_uint. rewrite fold_left_app. reflexivity. Qed.

Lemma length_be_bytes size n : length (be_bytes size n) = size.
Proof.
  revert n. induction size as [|k IH]; intros n; simpl; [reflexivity|].
  rewrite length_app, IH. simpl. lia.
Qed.

Lemma be_uint_be_bytes size n :
  0 <= n < 256 ^ Z.of_nat size -> be_uint (be_bytes size n) = n.
Proof.
  revert n. induction size as [|k IH]; intros n Hn.
  - simpl in *. unfold be_uint. simpl. lia.
  - cbn [be_bytes]. rewrite be_uint_app, Z_of_byte_of_Z.
    rewrite Nat2Z.inj_succ, Z.pow_succ_r in Hn by lia.
    rewrite IH.
    + pose proof (Z.div_mod n 256). lia.
    + split; [apply Z.div_pos; lia|].
      apply Z.div_lt_upper_bound; lia.
Qed.

Lemma length_store buf w : length (store buf w) = length buf.
Proof.
  unfold store. rewrite length_take, length_app, length_drop. lia.
Qed.

Lemma length_zero_buffer n : length (zero_buffer n) = n.
Proof. apply length_replicate. Qed.

Lemma length_range_from a n : length (range_from a n) = n.
Proof. revert a. induction n; intros; simpl; auto. Qed.

Lemma range_from_lookup a n i :
  (i < n)%nat -> range_from a n !! i = Some (a + Z.of_nat i).
Proof.
  revert a i. induction n as [|n IH]; intros a i Hi; [lia|].
  destruct i as [|i]; simpl.
  - f_equal. lia.
  - rewrite IH by lia. f_equal. lia.
Qed.

Lemma hex_roundtrip_all b : hex_roundtrip b = true.
Proof. destruct b; vm_compute; reflexivity. Qed.

Lemma int_hex_aux_bytes_hex bs acc :
  int_hex_aux (bytes_hex bs) acc
  = Some (fold_left (fun a b => a * 256 + Z_of_byte b) bs acc).
Proof.
  revert acc. induction bs as [|b bs IH]; intros acc; [reflexivity|].
  unfold bytes_hex in *. cbn [flat_map].
  pose proof (hex_roundtrip_all b) as Hb. unfold hex_roundtrip in Hb.
  destruct (fmt_x 2 (Z_of_byte b)) as [|c1 [|c2 [|? ?]]]; try discriminate.
  destruct (hex_value c1) as [d1|] eqn:E1; try discriminate.
  destruct (hex_value c2) as [d2|] eqn:E2; try discriminate.
  apply Z.eqb_eq in Hb.
  cbn [app int_hex_aux]. rewrite E1, E2, IH. cbn [fold_left].
  do 2 f_equal. lia.
Qed.

Lemma be_uint_range bs : 0 <= be_uint bs < 256 ^ Z.of_nat (length bs).
Proof.
  induction bs as [|b bs IH] using rev_ind.
  - unfold be_uint. simpl. lia.
  - rewrite be_uint_app, length_app. simpl.
    replace (Z.of_nat (length bs + 1)) with (Z.succ (Z.of_nat (length bs))) by lia.
    rewrite Z.pow_succ_r by lia.
    pose proof (Z_of_byte_range b). lia.
Qed.

Section Properties.

Context {F : Type}.
Variable L : libc F.
Variable U : unicodedata.

(** ** Rules of the weakest precondition *)

Lemma wp_run {A} (m : M F A) Q s r s' : wp m Q s -> m s = (r, s') -> Q r s'.
Proof. unfold wp. intros H E. rewrite E in H. exact H. Qed.

Lemma wp_ret {A} (a : A) (Q : result A -> state F -> Prop) s :
  Q (Ok a) s -> wp (ret a) Q s.
Proof. exact id. Qed.

Lemma wp_raise {A} e (Q : result A -> state F -> Prop) s :
  Q (Raise e) s -> wp (raise e) Q s.
Proof. exact id. Qed.

Lemma wp_bind {A B} (m : M F A) (k : A -> M F B) Q s :
  wp m (fun r s1 => match r with
                    | Ok a => wp (k a) Q s1
                    | Raise e => Q (Raise e) s1
                    end) s ->
  wp (bind m k) Q s.
Proof. unfold wp, bind. destruct (m s) as [[a|e] s1]; simpl; auto. Qed.

Lemma wp_try_except {A} (m : M F A) h Q s :
  wp m (fun r s1 => match r with
                    | Ok a => Q (Ok a) s1
                    | Raise e => match h e with
                                 | Some k => wp k Q s1
                                 | None => Q (Raise e) s1
                                 end
                    end) s ->
  wp (try_except m h) Q s.
Proof.
  unfold wp, try_except. destruct (m s) as [[a|e] s1]; simpl; auto.
  destruct (h e); auto.
Qed.

Lemma wp_syscall {A} (call : F -> A * F) log
    (Q : result A -> state F -> Prop) s :
  (forall a f', call (foreign s) = (a, f') ->
     Q (Ok a) (mkState f' (ptr_attr s) (trace s ++ [log a]) (stdout s) (fs s))) ->
  wp (syscall call log) Q s.
Proof.
  unfold wp, syscall. intros H.
  destruct (call (foreign s)) as [a f'] eqn:E. simpl. auto.
Qed.

Lemma wp_conseq {A} (m : M F A) (Q Q' : result A -> state F -> Prop) s :
  wp m Q s -> (forall r s', Q r s' -> Q' r s') -> wp m Q' s.
Proof. unfold wp. auto. Qed.

Lemma wp_getattr f (Q : result ILEPointer -> state F -> Prop) s :
  (forall p, ptr_attr s !! f = Some p -> Q (Ok p) s) ->
  (ptr_attr s !! f = None -> Q (Raise AttributeError) s) ->
  wp (getattr_ptr f) Q s.
Proof. unfold wp, getattr_ptr. destruct (ptr_attr s !! f); simpl; auto. Qed.

Lemma wp_setattr f p (Q : result unit -> state F -> Prop) s :
  Q (Ok tt) (mkState (foreign s) (<[f := p]> (ptr_attr s)) (trace s)
               (stdout s) (fs s)) ->
  wp (setattr_ptr f p) Q s.
Proof. exact id. Qed.

Lemma wp_print t (Q : result unit -> state F -> Prop) s :
  Q (Ok tt) (mkState (foreign s) (ptr_attr s) (trace s)
               (stdout s ++ t ++ [10]) (fs s)) ->
  wp (print t) Q s.
Proof. exact id. Qed.

Lemma wp_open_w name (Q : result unit -> state F -> Prop) s :
  Q (Ok tt) (mkState (foreign s) (ptr_attr s) (trace s) (stdout s)
               (<[name := []]> (fs s))) ->
  wp (open_w name) Q s.
Proof. exact id. Qed.

Lemma wp_print_to file t (Q : result unit -> state F -> Prop) s :
  Q (Ok tt) (mkState (foreign s) (ptr_attr s) (trace s) (stdout s)
               (<[file := default [] (fs s !! file) ++ t ++ [10]]> (fs s))) ->
  wp (print_to file t) Q s.
Proof. exact id. Qed.

(** The loop rule: [I done acc s] holds when the elements [done] have been
    processed. *)
Lemma wp_for_each {A S} (I : list A -> S -> state F -> Prop)
    (l : list A) (body : A -> S -> M F S) Q :
  (forall done x rest acc s,
     l = done ++ x :: rest -> I done acc s ->
     wp (body x acc) (fun r s' => match r with
                                  | Ok acc' => I (done ++ [x]) acc' s'
                                  | Raise e => Q (Raise e) s'
                                  end) s) ->
  (forall acc s, I l acc s -> Q (Ok acc) s) ->
  forall acc s, I [] acc s -> wp (for_each l body acc) Q s.
Proof.
  intros Hbody Hend.
  assert (Hgen : forall rest done acc s,
             l = done ++ rest -> I done acc s ->
             wp (for_each rest body acc) Q s).
  { induction rest as [|x rest IH]; intros done acc s Hl HI.
    - simpl. apply wp_ret. apply Hend. rewrite Hl, app_nil_r. exact HI.
    - simpl. apply wp_bind.
      eapply wp_conseq; [apply (Hbody done x rest); assumption|].
      intros [acc'|e] s' H; [|exact H].
      apply (IH (done ++ [x])); [|exact H].
      rewrite <- app_assoc. exact Hl. }
  intros acc s HI. apply (Hgen l []); auto.
Qed.

Lemma bind_inv {A B} (m : M F A) (k : A -> M F B) s r s' :
  bind m k s = (r, s') ->
  (exists a s1, m s = (Ok a, s1) /\ k a s1 = (r, s')) \/
  (exists e, m s = (Raise e, s') /\ r = Raise e).
Proof.
  unfold bind. destruct (m s) as [[a|e] s1]; intros H.
  - left. eauto.
  - right. inversion H; subst. eauto.
Qed.

Lemma bind_ok {A B} (m : M F A) (k : A -> M F B) s a s1 :
  m s = (Ok a, s1) -> bind m k s = k a s1.
Proof. unfold bind. intros ->. reflexivity. Qed.

Lemma bind_raise {A B} (m : M F A) (k : A -> M F B) s e s1 :
  m s = (Raise e, s1) -> bind m k s = (Raise e, s1).
Proof. unfold bind. intros ->. reflexivity. Qed.

Lemma new_events_app (s s' : state F) evs :
  trace s' = trace s ++ evs -> new_events s s' = evs.
Proof. unfold new_events. intros ->. apply drop_app_length. Qed.

Lemma int_hex_bytes_hex bs (s : state F) :
  bs <> [] -> int_hex (bytes_hex bs) s = (Ok (be_uint bs), s).
Proof.
  intros Hne. unfold int_hex.
  rewrite int_hex_aux_bytes_hex.
  destruct bs as [|b bs]; [congruence|].
  unfold bytes_hex at 1. cbn [flat_map].
  pose proof (hex_roundtrip_all b) as Hb. unfold hex_roundtrip in Hb.
  destruct (fmt_x 2 (Z_of_byte b)) as [|c1 ?]; [discriminate|].
  reflexivity.
Qed.

Lemma errno_buf_ne copied : store (zero_buffer 4) (take 4 copied) <> [].
Proof.
  intros H. apply (f_equal length) in H.
  rewrite length_store, length_zero_buffer in H. discriminate.
Qed.


Lemma wp_int_hex_bytes_hex bs (Q : result Z -> state F -> Prop) s :
  bs <> [] -> Q (Ok (be_uint bs)) s -> wp (int_hex (bytes_hex bs)) Q s.
Proof. intros Hne HQ. unfold wp. rewrite int_hex_bytes_hex by exact Hne. exact HQ. Qed.

Lemma wp_ok {A} (m : M F A) (P : A -> state F -> Prop) s a s' :
  wp m (fun r s1 => forall v, r = Ok v -> P v s1) s ->
  m s = (Ok a, s') -> P a s'.
Proof. intros H E. apply (wp_run _ _ _ _ _ H E). reflexivity. Qed.

Arguments wp : simpl never.

Ltac wp_simpl := cbn beta iota delta [fst snd foreign ptr_attr trace stdout fs].

Ltac wp_step :=
  lazymatch goal with
  | |- wp (bind _ _) _ _ => apply wp_bind
  | |- wp (ret _) _ _ => apply wp_ret
  | |- wp (raise _) _ _ => apply wp_raise
  | |- wp (try_except _ _) _ _ => apply wp_try_except
  | |- wp (syscall _ _) _ _ => apply wp_syscall; intros ? ? ?
  | |- wp (ilecall _ _ _ _ _ _) _ _ => unfold ilecall
  | |- wp (setspp _ _) _ _ => unfold setspp
  | |- wp (lazy_ptr _ _) _ _ => unfold lazy_ptr
  | |- wp (load_symbol _ _ _ _) _ _ => unfold load_symbol
  | |- wp (resolve_qtqgesp _) _ _ => unfold resolve_qtqgesp
  | |- wp (getattr_ptr _) _ _ => apply wp_getattr; [intros ? ? | intros ?]
  | |- wp (setattr_ptr _ _) _ _ => apply wp_setattr
  | |- wp (print _) _ _ => apply wp_print
  | |- wp (open_w _) _ _ => apply wp_open_w
  | |- wp (print_to _ _) _ _ => apply wp_print_to
  | |- wp (int_hex (bytes_hex _)) _ _ => apply wp_int_hex_bytes_hex
  | |- wp (if ?b then _ else _) _ _ => destruct b eqn:?
  | |- wp (match ?x with _ => _ end) _ _ => destruct x eqn:?
  end; wp_simpl.

(** From a run that returned to a [wp] goal. *)
Ltac by_wp H :=
  match type of H with
  | ?m ?s = (Ok ?a, ?s') =>
      pattern a, s';
      match goal with
      | |- ?P a s' => refine (wp_ok m P s a s' _ H)
      end; clear H
  end.

(** Turning [new_events s s'] into the list of events appended to the trace
    of [s]. *)
Ltac ev_norm :=
  unfold new_events; cbn [trace];
  repeat rewrite <- app_assoc;
  first [ rewrite drop_app_length | rewrite drop_all ];
  cbn [app].

Ltac ok_inv :=
  let v := fresh "v" in
  let Hv := fresh "Hv" in
  intros v Hv; inversion Hv; subst; clear Hv.

(** ** The errno accessor *)

(** C7: when [get_ile_errno] returns, it has called the accessor with the
    bare argument list and the empty signature, then copied exactly four
    bytes from the location the accessor returned into the local buffer,
    and the value returned is the big-endian unsigned reading of that
    four-byte buffer. *)
Theorem get_ile_errno_reads_errno s v s' :
  get_ile_errno L s = (Ok v, s') ->
  exists pre ptr eff errnop_pase copied,
    new_events s s'
    = pre ++ [EvILECALLX ptr ILEArglistBase [ARG_END] 16
                         ILECALL_EXCP_NOSIGNAL eff;
              EvSETSPP errno_buf errnop_pase;
              EvMEMCPY_WT2 errnop_pase (ile_result_ptr eff) 4 copied] /\
    Forall (fun ev => is_resolution ev = true) pre /\
    let buf := store (zero_buffer 4) (take 4 copied) in
    length buf = 4%nat /\ v = be_uint buf /\ 0 <= v < 2 ^ 32.
Proof.
  intros H. by_wp H. unfold get_ile_errno.
  assert (Hbuf : forall copied : bytes,
             let buf := store (zero_buffer 4) (take 4 copied) in
             length buf = 4%nat /\ be_uint buf = be_uint buf /\
             0 <= be_uint buf < 2 ^ 32).
  { intros copied buf.
    assert (Hlen : length buf = 4%nat)
      by (unfold buf; rewrite length_store; apply length_zero_buffer).
    pose proof (be_uint_range buf) as Hr. rewrite Hlen in Hr.
    change (256 ^ Z.of_nat 4) with (2 ^ 32) in Hr. auto. }
  repeat wp_step; try apply errno_buf_ne; ok_inv.
  - exists []. do 4 eexists. split; [ev_norm; reflexivity|].
    split; [constructor|]. apply Hbuf.
  - eexists [_; _]. do 4 eexists. split; [ev_norm; reflexivity|].
    split; [repeat constructor|]. apply Hbuf.
Qed.

(** ** The converter *)



(** ** Failures of the call primitive *)

(** Case analysis on the membership of an event in an explicit list. *)
Ltac ev_cases H :=
  repeat first
    [ apply elem_of_nil in H; contradiction
    | apply elem_of_cons in H; destruct H as [H|H]; [subst|] ].

Ltac rc_facts :=
  repeat match goal with
  | H : negb (_ =? _) = true |- _ => apply negb_true_iff, Z.eqb_neq in H
  | H : negb (_ =? _) = false |- _ => apply negb_false_iff, Z.eqb_eq in H
  end.

Ltac single_call :=
  repeat wp_step; try apply errno_buf_ne;
  intros ev Hev; revert Hev; ev_norm; intros Hev; ev_cases Hev;
  rc_facts; cbn [failed_call ok_call];
  (split; intros Hc; try contradiction;
   unfold raises_RuntimeError, returns; eauto).

Lemma get_ile_errno_single_call s :
  wp (get_ile_errno L) (single_call_outcome s) s.
Proof. unfold get_ile_errno, single_call_outcome. single_call. Qed.

Lemma iconv_open_single_call out_ccsid in_ccsid s :
  wp (iconv_open L out_ccsid in_ccsid) (single_call_outcome s) s.
Proof. unfold iconv_open, single_call_outcome. single_call. Qed.

Lemma iconv_close_single_call cd s :
  wp (iconv_close L cd) (single_call_outcome s) s.
Proof. unfold iconv_close, single_call_outcome. single_call. Qed.

Lemma iconv_single_call cd data s :
  wp (iconv L cd data) (single_call_outcome s) s.
Proof. unfold iconv, single_call_outcome. single_call. Qed.

(** *** Propagation through the callers *)

Lemma all_calls_ok_nil : all_calls_ok [].
Proof. intros ev H. apply elem_of_nil in H. contradiction. Qed.

Lemma all_calls_ok_app evs1 evs2 :
  all_calls_ok evs1 -> all_calls_ok evs2 -> all_calls_ok (evs1 ++ evs2).
Proof.
  intros H1 H2 ev H. apply elem_of_app in H as [H|H]; [apply H1|apply H2]; exact H.
Qed.

Lemma surfaces_ret {A} (a : A) : surfaces (F:=F) (ret a).
Proof.
  intros s. exists []. simpl. rewrite app_nil_r. split; [reflexivity|].
  apply all_calls_ok_nil.
Qed.

Lemma surfaces_raise {A} e : surfaces (F:=F) (A:=A) (raise e).
Proof.
  intros s. exists []. simpl. rewrite app_nil_r. split; [reflexivity|].
  left. apply all_calls_ok_nil.
Qed.

Lemma surfaces_bind {A B} (m : M F A) (k : A -> M F B) :
  surfaces m -> (forall a, surfaces (k a)) -> surfaces (bind m k).
Proof.
  intros Hm Hk s. specialize (Hm s). unfold bind.
  destruct (m s) as [[a|e] s1]; simpl in *; [|exact Hm].
  destruct Hm as (evs1 & Ht1 & Hok1).
  destruct (Hk a s1) as (evs2 & Ht2 & Hok2).
  exists (evs1 ++ evs2). split; [rewrite Ht2, Ht1, app_assoc; reflexivity|].
  destruct ((k a s1).1) as [b|e].
  - apply all_calls_ok_app; assumption.
  - destruct Hok2 as [Hok2|Hok2]; [left; apply all_calls_ok_app; assumption|].
    right. exact Hok2.
Qed.

Lemma surfaces_try_except {A} (m : M F A) h :
  surfaces m -> (forall e k, h e = Some k -> surfaces k) ->
  (forall e msg, e = RuntimeError msg -> h e = None) ->
  surfaces (try_except m h).
Proof.
  intros Hm Hh Hrt s. specialize (Hm s). unfold try_except.
  destruct (m s) as [[a|e] s1]; simpl in *; [exact Hm|].
  destruct (h e) as [k|] eqn:Ek; [|exact Hm].
  destruct Hm as (evs1 & Ht1 & Hok1).
  destruct Hok1 as [Hok1|[msg ->]].
  2:{ rewrite (Hrt _ msg eq_refl) in Ek. discriminate. }
  destruct (Hh e k Ek s1) as (evs2 & Ht2 & Hok2).
  exists (evs1 ++ evs2). split; [rewrite Ht2, Ht1, app_assoc; reflexivity|].
  destruct ((k s1).1) as [b|e'].
  - apply all_calls_ok_app; assumption.
  - destruct Hok2 as [Hok2|Hok2]; [left; apply all_calls_ok_app; assumption|].
    right. exact Hok2.
Qed.

Lemma surfaces_for_each {A S} (l : list A) (body : A -> S -> M F S) acc :
  (forall x acc, surfaces (body x acc)) -> surfaces (for_each l body acc).
Proof.
  intros Hbody. revert acc. induction l as [|x l IH]; intros acc; simpl.
  - apply surfaces_ret.
  - apply surfaces_bind; auto.
Qed.

(** A step that makes no system call. *)
Lemma surfaces_silent {A} (m : M F A) :
  (forall s, trace (m s).2 = trace s) -> surfaces m.
Proof.
  intros H s. exists []. rewrite app_nil_r. split; [apply H|].
  destruct ((m s).1); [|left]; apply all_calls_ok_nil.
Qed.

Ltac trace_eq := cbn [trace]; repeat rewrite <- app_assoc; cbn [app];
  first [ reflexivity | symmetry; apply app_nil_r ].

Ltac calls_ok :=
  let ev := fresh "ev" in
  let H := fresh "H" in
  intros ev H; cbn [app] in H; ev_cases H; cbn [failed_call]; tauto.

Ltac surfaces_by_cases :=
  intros s;
  lazymatch goal with
  | |- surfaced s (?m s).1 (?m s).2 => change (wp m (surfaced s) s)
  end;
  repeat wp_step; try apply errno_buf_ne; rc_facts;
  (eexists; split; [trace_eq|];
   first [ solve [calls_ok] | solve [left; calls_ok] | right; eauto ]).

Lemma iconv_open_surfaces out_ccsid in_ccsid :
  surfaces (iconv_open L out_ccsid in_ccsid).
Proof. unfold surfaces, iconv_open. surfaces_by_cases. Qed.

Lemma iconv_surfaces cd data : surfaces (iconv L cd data).
Proof. unfold surfaces, iconv. surfaces_by_cases. Qed.

Lemma iconv_close_surfaces cd : surfaces (iconv_close L cd).
Proof. unfold surfaces, iconv_close. surfaces_by_cases. Qed.

Lemma get_ile_errno_surfaces : surfaces (get_ile_errno L).
Proof.
  unfold surfaces, get_ile_errno. surfaces_by_cases.
Qed.

Lemma get_encoding_scheme_surfaces ccsid :
  surfaces (get_encoding_scheme L ccsid).
Proof. unfold surfaces, get_encoding_scheme. surfaces_by_cases. Qed.

Ltac surfaces_step0 :=
  lazymatch goal with
  | |- surfaces (ret _) => apply surfaces_ret
  | |- surfaces (raise _) => apply surfaces_raise
  | |- surfaces (bind _ _) => apply surfaces_bind; [|intros ?]
  | |- surfaces (for_each _ _ _) => apply surfaces_for_each; intros ? ?
  | |- surfaces (iconv_open _ _ _) => apply iconv_open_surfaces
  | |- surfaces (iconv _ _ _) => apply iconv_surfaces
  | |- surfaces (iconv_close _ _) => apply iconv_close_surfaces
  | |- surfaces (get_encoding_scheme _ _) => apply get_encoding_scheme_surfaces
  | |- surfaces (print _) => apply surfaces_silent; intros ?; reflexivity
  | |- surfaces (print_to _ _) => apply surfaces_silent; intros ?; reflexivity
  | |- surfaces (open_w _) => apply surfaces_silent; intros ?; reflexivity
  | |- surfaces (if ?b then _ else _) => destruct b eqn:?
  | |- surfaces (match ?x with _ => _ end) => destruct x eqn:?
  end.

Lemma name_handlers_surfaces u e k :
  name_handlers U u e = Some k -> surfaces (F:=F) k.
Proof.
  unfold name_handlers, local, unicodedata_category. intros H.
  destruct (is_ValueError e); [|destruct (is_UnicodeDecodeError e)];
    inversion H; subst; clear H; repeat surfaces_step0.
Qed.

Ltac surfaces_step :=
  lazymatch goal with
  | |- surfaces (try_except _ (name_handlers _ _)) =>
      apply surfaces_try_except;
      [ | intros ? ?; apply name_handlers_surfaces
        | intros ? ? ->; reflexivity ]
  | |- _ => surfaces_step0
  end.

Lemma write_conv_txt_surfaces tbl file :
  surfaces (F:=F) (write_conv_txt U tbl file).
Proof.
  unfold write_conv_txt, len, write_conv_txt_entry, unicodedata_name.
  repeat surfaces_step.
Qed.

Lemma write_conv_html_surfaces ccsid tbl file :
  surfaces (F:=F) (write_conv_html U ccsid tbl file).
Proof.
  unfold write_conv_html, write_conv_html_cell, len, getitem,
    decode_utf_16be, unicodedata_category, ord.
  repeat surfaces_step.
Qed.

Lemma dump_conv_table_surfaces ccsid es :
  surfaces (dump_conv_table L ccsid es).
Proof.
  unfold dump_conv_table, dump_conv_table_step, to_bytes, setitem.
  repeat surfaces_step.
Qed.

Lemma driver_surfaces ccsids : surfaces (driver L U ccsids).
Proof.
  unfold driver, driver_body, report. repeat surfaces_step.
  - apply dump_conv_table_surfaces.
  - apply write_conv_txt_surfaces.
  - apply write_conv_html_surfaces.
Qed.

Lemma surfaced_failed_call {A} (s : state F) (r : result A) s' ev :
  surfaced s r s' -> ev ∈ new_events s s' -> failed_call ev ->
  raises_RuntimeError r.
Proof.
  intros (evs & Ht & Hok) Hin Hf.
  rewrite (new_events_app _ _ _ Ht) in Hin.
  destruct r as [a|e].
  - exfalso. exact (Hok ev Hin Hf).
  - destruct Hok as [Hok|[msg ->]].
    + exfalso. exact (Hok ev Hin Hf).
    + exists msg. reflexivity.
Qed.

(** C4: in each of the four functions that go through [_ILECALLX], a call
    that returned nonzero makes the function raise, and a call that
    returned zero makes it return; and a run of the table builder or of the
    driver loop in which such a call returned nonzero ends by raising that
    error: no caller swallows it. *)
Theorem ilecallx_failure_surfaces s ev :
  (ev ∈ new_events s (get_ile_errno L s).2 ->
   (failed_call ev -> raises_RuntimeError (get_ile_errno L s).1) /\
   (ok_call ev -> returns (get_ile_errno L s).1)) /\
  (forall out_ccsid in_ccsid,
     ev ∈ new_events s (iconv_open L out_ccsid in_ccsid s).2 ->
     (failed_call ev ->
      raises_RuntimeError (iconv_open L out_ccsid in_ccsid s).1) /\
     (ok_call ev -> returns (iconv_open L out_ccsid in_ccsid s).1)) /\
  (forall cd,
     ev ∈ new_events s (iconv_close L cd s).2 ->
     (failed_call ev -> raises_RuntimeError (iconv_close L cd s).1) /\
     (ok_call ev -> returns (iconv_close L cd s).1)) /\
  (forall cd data,
     ev ∈ new_events s (iconv L cd data s).2 ->
     (failed_call ev -> raises_RuntimeError (iconv L cd data s).1) /\
     (ok_call ev -> returns (iconv L cd data s).1)) /\
  (forall ccsid es,
     ev ∈ new_events s (dump_conv_table L ccsid es s).2 ->
     failed_call ev ->
     raises_RuntimeError (dump_conv_table L ccsid es s).1) /\
  (forall ccsids,
     ev ∈ new_events s (driver L U ccsids s).2 ->
     failed_call ev ->
     raises_RuntimeError (driver L U ccsids s).1).
Proof.
  repeat split.
  - apply (get_ile_errno_single_call s ev H).
  - apply (get_ile_errno_single_call s ev H).
  - apply (iconv_open_single_call _ _ s ev H).
  - apply (iconv_open_single_call _ _ s ev H).
  - apply (iconv_close_single_call _ s ev H).
  - apply (iconv_close_single_call _ s ev H).
  - apply (iconv_single_call _ _ s ev H).
  - apply (iconv_single_call _ _ s ev H).
  - intros ccsid es Hin Hf.
    exact (surfaced_failed_call _ _ _ _ (dump_conv_table_surfaces ccsid es s) Hin Hf).
  - intros ccsids Hin Hf.
    exact (surfaced_failed_call _ _ _ _ (driver_surfaces ccsids s) Hin Hf).
Qed.

(** ** The symbol cache *)

Lemma lazy_ptr_miss f resolve (s : state F) :
  ptr_attr s !! f = None ->
  lazy_ptr f resolve s
  = bind resolve (fun p => bind (setattr_ptr f p) (fun _ => ret p)) s.
Proof.
  intros H. unfold lazy_ptr, try_except, getattr_ptr. rewrite H. reflexivity.
Qed.

Lemma lazy_ptr_hit f resolve (s : state F) p :
  ptr_attr s !! f = Some p -> lazy_ptr f resolve s = (Ok p, s).
Proof.
  intros H. unfold lazy_ptr, try_except, getattr_ptr. rewrite H. reflexivity.
Qed.

Lemma lazy_op_cache {A} f resolve (body : ILEPointer -> M F A) :
  resolves resolve -> uses_handle body ->
  let m := bind (lazy_ptr f resolve) body in
  forall s,
    (forall p, ptr_attr s !! f = Some p ->
       Forall (fun ev => is_resolution ev = false /\
                         forall q, call_ptr ev = Some q -> q = p)
              (new_events s (m s).2) /\
       (exists ev, ev ∈ new_events s (m s).2 /\ call_ptr ev = Some p) /\
       ptr_attr (m s).2 !! f = Some p) /\
    (forall p s1, ptr_attr s !! f = None -> resolve s = (Ok p, s1) ->
       ptr_attr (m s).2 !! f = Some p) /\
    (forall e s1, ptr_attr s !! f = None -> resolve s = (Raise e, s1) ->
       m s = (Raise e, s1) /\ ptr_attr s1 !! f = None) /\
    (ptr_attr s !! f = None ->
       exists ev evs, new_events s (m s).2 = ev :: evs /\
                      is_resolution ev = true).
Proof.
  intros Hres Hbody m s. split; [|split; [|split]].
  - intros p Hp. unfold m.
    rewrite (bind_ok _ _ _ _ _ (lazy_ptr_hit f resolve s p Hp)).
    destruct (Hbody p s) as (Hattr & evs & Htr & Hall & Hev).
    rewrite (new_events_app _ _ _ Htr), Hattr. auto.
  - intros p s1 Hnone Hr. unfold m.
    assert (Hl : lazy_ptr f resolve s
                 = (Ok p, mkState (foreign s1) (<[f := p]> (ptr_attr s1))
                            (trace s1) (stdout s1) (fs s1))).
    { rewrite lazy_ptr_miss by exact Hnone.
      rewrite (bind_ok _ _ _ _ _ Hr). reflexivity. }
    rewrite (bind_ok _ _ _ _ _ Hl).
    destruct (Hbody p (mkState (foreign s1) (<[f := p]> (ptr_attr s1))
                         (trace s1) (stdout s1) (fs s1))) as (Hattr & _).
    rewrite Hattr. cbn [ptr_attr]. apply lookup_insert_eq.
  - intros e s1 Hnone Hr. unfold m. split.
    + apply bind_raise. rewrite lazy_ptr_miss by exact Hnone.
      apply bind_raise. exact Hr.
    + destruct (Hres s) as (Hattr & _). rewrite Hr in Hattr. cbn in Hattr.
      rewrite Hattr. exact Hnone.
  - intros Hnone. unfold m.
    destruct (Hres s) as (_ & ev & evs & Htr & Hev).
    destruct (resolve s) as [[p|e] s1] eqn:Hr; cbn [snd] in Htr.
    + assert (Hl : lazy_ptr f resolve s
                   = (Ok p, mkState (foreign s1) (<[f := p]> (ptr_attr s1))
                              (trace s1) (stdout s1) (fs s1))).
      { rewrite lazy_ptr_miss by exact Hnone.
        rewrite (bind_ok _ _ _ _ _ Hr). reflexivity. }
      rewrite (bind_ok _ _ _ _ _ Hl).
      destruct (Hbody p (mkState (foreign s1) (<[f := p]> (ptr_attr s1))
                           (trace s1) (stdout s1) (fs s1)))
        as (_ & evs' & Htr' & _).
      exists ev, (evs ++ evs'). split; [|exact Hev].
      apply new_events_app. rewrite Htr'. cbn [trace].
      rewrite Htr, <- app_assoc. reflexivity.
    + assert (Hm : bind (lazy_ptr f resolve) body s = (Raise e, s1)).
      { apply bind_raise. rewrite lazy_ptr_miss by exact Hnone.
        apply bind_raise. exact Hr. }
      rewrite Hm. exists ev, evs. split; [|exact Hev].
      apply new_events_app. exact Htr.
Qed.

Lemma load_symbol_resolves library srvpgm symbol :
  resolves (load_symbol L library srvpgm symbol).
Proof.
  intros s.
  change (wp (load_symbol L library srvpgm symbol)
            (fun _ s' => ptr_attr s' = ptr_attr s /\
               exists ev evs, trace s' = trace s ++ ev :: evs /\
                              is_resolution ev = true) s).
  repeat wp_step; (split; [reflexivity|]);
    do 2 eexists; (split; [trace_eq|reflexivity]).
Qed.

Lemma resolve_qtqgesp_resolves : resolves (resolve_qtqgesp L).
Proof.
  intros s.
  change (wp (resolve_qtqgesp L)
            (fun _ s' => ptr_attr s' = ptr_attr s /\
               exists ev evs, trace s' = trace s ++ ev :: evs /\
                              is_resolution ev = true) s).
  repeat wp_step; (split; [reflexivity|]);
    do 2 eexists; (split; [trace_eq|reflexivity]).
Qed.

Ltac find_event :=
  first
    [ eexists; split; [apply list_elem_of_here | reflexivity]
    | eexists; split;
      [apply list_elem_of_further, list_elem_of_here | reflexivity]
    | eexists; split;
      [do 2 apply list_elem_of_further; apply list_elem_of_here
      | reflexivity]
    | eexists; split;
      [do 3 apply list_elem_of_further; apply list_elem_of_here
      | reflexivity] ].

Ltac uses_handle_by_cases :=
  intros p s;
  lazymatch goal with
  | |- ptr_attr (?m s).2 = _ /\ _ =>
      change (wp m (fun _ s' =>
        ptr_attr s' = ptr_attr s /\
        exists evs,
          trace s' = trace s ++ evs /\
          Forall (fun ev => is_resolution ev = false /\
                            forall q, call_ptr ev = Some q -> q = p) evs /\
          exists ev, ev ∈ evs /\ call_ptr ev = Some p) s)
  end;
  repeat wp_step; try apply errno_buf_ne;
  (split; [reflexivity|]); eexists; (split; [trace_eq|]);
  (split; [ repeat constructor; cbn [call_ptr]; intros ? [= <-]; reflexivity
          | find_event ]).

(** C5: for each of the five bridge operations: with the handle [p]
    already in the attribute the operation makes no system call of
    resolution, every foreign call it makes goes through [p], and [p]
    stays in the attribute; a first resolution that succeeds with [p]
    leaves [p] in the attribute; a resolution that fails leaves the
    attribute unset and the operation raises what the resolution raised;
    and whenever the attribute is unset the operation starts with a system
    call of resolution, so that a failed resolution is tried again by the
    next call. *)
Theorem symbol_cache f resolve A (m : M F A) :
  bridge_op L f resolve A m ->
  forall s,
    (forall p, ptr_attr s !! f = Some p ->
       Forall (fun ev => is_resolution ev = false /\
                         forall q, call_ptr ev = Some q -> q = p)
              (new_events s (m s).2) /\
       (exists ev, ev ∈ new_events s (m s).2 /\ call_ptr ev = Some p) /\
       ptr_attr (m s).2 !! f = Some p) /\
    (forall p s1, ptr_attr s !! f = None -> resolve s = (Ok p, s1) ->
       ptr_attr (m s).2 !! f = Some p) /\
    (forall e s1, ptr_attr s !! f = None -> resolve s = (Raise e, s1) ->
       m s = (Raise e, s1) /\ ptr_attr s1 !! f = None) /\
    (ptr_attr s !! f = None ->
       exists ev evs, new_events s (m s).2 = ev :: evs /\
                      is_resolution ev = true).
Proof.
  intros Hop. destruct Hop.
  - unfold get_ile_errno.
    apply lazy_op_cache; [apply load_symbol_resolves|]. uses_handle_by_cases.
  - unfold iconv_open.
    apply lazy_op_cache; [apply load_symbol_resolves|]. uses_handle_by_cases.
  - unfold iconv_close.
    apply lazy_op_cache; [apply load_symbol_resolves|]. uses_handle_by_cases.
  - unfold iconv.
    apply lazy_op_cache; [apply load_symbol_resolves|]. uses_handle_by_cases.
  - unfold get_encoding_scheme.
    apply lazy_op_cache; [apply resolve_qtqgesp_resolves|].
    uses_handle_by_cases.
Qed.

(** ** Open failure *)

Lemma iconv_open_spec out_ccsid in_ccsid s :
  wp (iconv_open L out_ccsid in_ccsid)
     (fun r s' =>
        Forall (fun ev => is_convert_call ev = false /\
                          is_close_call ev = false) (new_events s s') /\
        forall cd, r = Ok cd ->
          exists ptr eff,
            last (trace s')
            = Some (EvILECALLX ptr
                      (IconvOpenArglist
                         (mk_qtqcode_t (c_int out_ccsid) 0 0 0 0 0)
                         (mk_qtqcode_t (c_int in_ccsid) 0 0 0 0 0))
                      [ARG_MEMPTR; ARG_MEMPTR; ARG_END] sizeof_iconv_t
                      ILECALL_EXCP_NOSIGNAL eff) /\
            c_int (ile_rc eff) = 0 /\ cd = ile_result_cd eff) s.
Proof.
  unfold iconv_open. repeat wp_step; rc_facts;
    (split; [ev_norm; repeat constructor|]);
    intros cd0 Hcd; inversion Hcd; subst; clear Hcd;
    do 2 eexists; (split; [apply last_snoc|]); auto.
Qed.

(** C3: when [iconv_open] hands back a descriptor whose [rtn] is -1, it
    has returned normally: the descriptor is the one the foreign side
    stored on a call that itself returned zero; and [dump_conv_table] then
    prints its message and returns [None], in the state [iconv_open] left
    but for the message: no system call follows the open, and none of the
    calls made is a call of [iconv] or of [iconv_close]. *)
Theorem open_failure_in_band ccsid es s cd s1 :
  iconv_open L 1200 ccsid s = (Ok cd, s1) ->
  c_int (rtn cd) = -1 ->
  (exists ptr eff,
     last (trace s1)
     = Some (EvILECALLX ptr
               (IconvOpenArglist (mk_qtqcode_t 1200 0 0 0 0 0)
                                 (mk_qtqcode_t (c_int ccsid) 0 0 0 0 0))
               [ARG_MEMPTR; ARG_MEMPTR; ARG_END] sizeof_iconv_t
               ILECALL_EXCP_NOSIGNAL eff) /\
     c_int (ile_rc eff) = 0 /\ cd = ile_result_cd eff) /\
  dump_conv_table L ccsid es s
  = (Ok None, mkState (foreign s1) (ptr_attr s1) (trace s1)
                (stdout s1 ++ str "Couldn't open converter" ++ [10])
                (fs s1)) /\
  Forall (fun ev => is_convert_call ev = false /\ is_close_call ev = false)
         (new_events s s1).
Proof.
  intros Hopen Hrtn.
  pose proof (wp_run _ _ _ _ _ (iconv_open_spec 1200 ccsid s) Hopen)
    as [Hev Hcd].
  split; [exact (Hcd cd eq_refl)|]. split; [|exact Hev].
  unfold dump_conv_table. rewrite (bind_ok _ _ _ _ _ Hopen).
  rewrite Hrtn. reflexivity.
Qed.

(** ** Classification *)

(** C2: when [get_encoding_scheme] returns, it has called QTQGESP for the
    CCSID; if any of the three feedback words is nonzero the value is -1,
    otherwise it is the classification code; a value other than 0x1100 and
    0x1200 (so also -1) makes the driver do nothing more for this CCSID,
    and one of the two makes it go on to the report with that value,
    unless the CCSID is one of the two it skips. *)
Theorem get_encoding_scheme_classifies ccsid s v s' :
  get_encoding_scheme L ccsid s = (Ok v, s') ->
  exists ptr args eff fb0 fb1 fb2,
    last (trace s') = Some (EvPGMCALL ptr args PGMCALL_EXCP_NOSIGNAL eff) /\
    ga_ccsid1 args = c_int ccsid /\
    pgm_fb eff = (fb0, fb1, fb2) /\
    (c_int fb0 <> 0 \/ c_int fb1 <> 0 \/ c_int fb2 <> 0 -> v = -1) /\
    (c_int fb0 = 0 /\ c_int fb1 = 0 /\ c_int fb2 = 0 ->
     v = c_int (pgm_es eff)) /\
    (v <> 0x1100 -> v <> 0x1200 -> driver_body L U ccsid s = (Ok tt, s')) /\
    (v = 0x1100 \/ v = 0x1200 -> ccsid <> 16684 -> ccsid <> 57777 ->
     driver_body L U ccsid s = report L U ccsid v s').
Proof.
  intros H.
  assert (Hdrv :
    (v <> 0x1100 -> v <> 0x1200 -> driver_body L U ccsid s = (Ok tt, s')) /\
    (v = 0x1100 \/ v = 0x1200 -> ccsid <> 16684 -> ccsid <> 57777 ->
     driver_body L U ccsid s = report L U ccsid v s')).
  { unfold driver_body. rewrite (bind_ok _ _ _ _ _ H). split.
    - intros H1 H2. apply Z.eqb_neq in H1, H2. rewrite H1, H2. reflexivity.
    - intros Hv H1 H2. apply Z.eqb_neq in H1, H2. rewrite H1, H2.
      destruct Hv as [-> | ->]; reflexivity. }
  revert Hdrv. generalize (driver_body L U ccsid s). intros d Hdrv.
  revert d Hdrv. by_wp H. unfold get_encoding_scheme.
  assert (Hfb : forall fb fb0 fb1 fb2, fb = (fb0, fb1, fb2) ->
            (any_fb fb = true ->
             ~ (c_int fb0 = 0 /\ c_int fb1 = 0 /\ c_int fb2 = 0)) /\
            (any_fb fb = false ->
             ~ (c_int fb0 <> 0 \/ c_int fb1 <> 0 \/ c_int fb2 <> 0))).
  { intros fb fb0 fb1 fb2 ->. unfold any_fb. split; intros Hany.
    - apply orb_true_iff in Hany as [Hany|Hany];
        [apply orb_true_iff in Hany as [Hany|Hany]|];
        apply negb_true_iff, Z.eqb_neq in Hany; tauto.
    - apply orb_false_iff in Hany as [Hany H3].
      apply orb_false_iff in Hany as [H1 H2].
      apply negb_false_iff, Z.eqb_eq in H1, H2, H3. tauto. }
  repeat wp_step; ok_inv; intros d Hdrv;
    destruct (pgm_fb _) as [[fb0 fb1] fb2] eqn:Efb;
    do 3 eexists; exists fb0, fb1, fb2;
    (split; [apply last_snoc|]); (split; [reflexivity|]);
    (split; [exact Efb|]);
    match goal with
    | Hany : any_fb _ = _ |- _ =>
        destruct (Hfb (fb0, fb1, fb2) fb0 fb1 fb2 eq_refl) as [Hf1 Hf2];
        first [ specialize (Hf1 Hany) | specialize (Hf2 Hany) ]
    end;
    (split; [tauto|]); (split; [tauto|]); exact Hdrv.
Qed.

(** ** The table builder *)

Lemma be_bytes_be_uint data :
  be_bytes (length data) (be_uint data) = data.
Proof.
  induction data as [|b data IH] using rev_ind; [reflexivity|].
  rewrite length_app, Nat.add_comm. cbn [length Nat.add be_bytes].
  rewrite be_uint_app.
  pose proof (Z_of_byte_range b) as Hb.
  replace ((be_uint data * 256 + Z_of_byte b) / 256) with (be_uint data).
  2:{ symmetry. rewrite Z.add_comm, Z.div_add by lia.
      rewrite Z.div_small by lia. reflexivity. }
  rewrite IH. f_equal. f_equal.
  rewrite <- (byte_of_Z_of_byte b) at 2.
  unfold byte_of_Z. rewrite Z.add_comm, Z.mod_add by lia. reflexivity.
Qed.

Lemma to_bytes_inv n size (s s' : state F) data :
  to_bytes n size s = (Ok data, s') ->
  s' = s /\ data = be_bytes size n /\ 0 <= n < 256 ^ Z.of_nat size.
Proof.
  unfold to_bytes.
  destruct ((0 <=? n) && (n <? 256 ^ Z.of_nat size)) eqn:E;
    intros H; inversion H; subst.
  apply andb_true_iff in E as [E1 E2].
  split; [reflexivity|]. split; [reflexivity|]. lia.
Qed.

Lemma to_bytes_ok n size (s : state F) :
  0 <= n < 256 ^ Z.of_nat size ->
  to_bytes n size s = (Ok (be_bytes size n), s).
Proof.
  intros Hn. unfold to_bytes.
  replace ((0 <=? n) && (n <? 256 ^ Z.of_nat size)) with true; [reflexivity|].
  symmetry. apply andb_true_iff. lia.
Qed.

Lemma setitem_ok {A} (l : list A) i v (s : state F) :
  0 <= i < Z.of_nat (length l) ->
  setitem l i v s = (Ok (<[Z.to_nat i := v]> l), s).
Proof.
  intros Hi. unfold setitem.
  replace ((0 <=? i) && (i <? Z.of_nat (length l))) with true; [reflexivity|].
  symmetry. apply andb_true_iff. lia.
Qed.

Lemma table_after_step (tbl : list (option bytes)) a x outs n :
  0 <= a -> (Z.to_nat a < length tbl)%nat ->
  take (Z.to_nat (a + 1)) (<[Z.to_nat a := x]> tbl) ++ map Some outs
    ++ drop (Z.to_nat (a + 1) + n) (<[Z.to_nat a := x]> tbl)
  = take (Z.to_nat a) tbl ++ (x :: map Some outs)
    ++ drop (Z.to_nat a + S n) tbl.
Proof.
  intros Ha Hlt.
  replace (Z.to_nat (a + 1)) with (S (Z.to_nat a)) by lia.
  rewrite (take_S_r _ _ x) by (apply list_lookup_insert_eq; exact Hlt).
  rewrite take_insert_ge by lia.
  rewrite drop_insert_lt by lia.
  rewrite <- app_assoc. cbn [app].
  replace (S (Z.to_nat a) + n)%nat with (Z.to_nat a + S n)%nat by lia.
  reflexivity.
Qed.

(** The loop, read forwards: a loop that completes has converted the code
    points in order and stored the outputs in their slots. *)
Lemma dump_loop_inv cd w n : forall a (tbl tbl' : list (option bytes)) s s',
  0 <= a -> (Z.to_nat a + n <= length tbl)%nat ->
  for_each (range_from a n) (dump_conv_table_step L cd w) tbl s
  = (Ok tbl', s') ->
  exists outs,
    converts L cd w (range_from a n) s outs s' /\
    tbl' = take (Z.to_nat a) tbl ++ map Some outs
           ++ drop (Z.to_nat a + n) tbl.
Proof.
  induction n as [|n IH]; intros a tbl tbl' s s' Ha Hlen H.
  - cbn in H. inversion H; subst. exists []. split; [constructor|].
    cbn [map app]. rewrite Nat.add_0_r, take_drop. reflexivity.
  - cbn [range_from for_each] in H.
    apply bind_inv in H as [(tbl1 & s1 & Hstep & Hrest)|(e & _ & He)];
      [|discriminate].
    unfold dump_conv_table_step in Hstep.
    apply bind_inv in Hstep as [(data & s0 & Hdata & Hstep)|(e & _ & He)];
      [|discriminate].
    apply to_bytes_inv in Hdata as (-> & -> & Hrange).
    apply bind_inv in Hstep as [([rc out] & s2 & Hconv & Hset)|(e & _ & He)];
      [|discriminate].
    rewrite setitem_ok in Hset by lia. inversion Hset; subst; clear Hset.
    apply IH in Hrest as (outs & Hconvs & ->);
      [|lia|rewrite length_insert; lia].
    exists (out :: outs). split.
    + econstructor; [apply length_be_bytes| |exact Hconv|exact Hconvs].
      apply be_uint_be_bytes. exact Hrange.
    + cbn [snd map]. apply table_after_step; lia.
Qed.

(** The loop, read backwards: conversions that all return make the loop
    complete. *)
Lemma dump_loop_run cd w n :
  forall a (tbl : list (option bytes)) s outs s',
  0 <= a -> (Z.to_nat a + n <= length tbl)%nat ->
  a + Z.of_nat n <= 256 ^ Z.of_nat w ->
  converts L cd w (range_from a n) s outs s' ->
  for_each (range_from a n) (dump_conv_table_step L cd w) tbl s
  = (Ok (take (Z.to_nat a) tbl ++ map Some outs
         ++ drop (Z.to_nat a + n) tbl), s').
Proof.
  induction n as [|n IH]; intros a tbl s outs s' Ha Hlen Hmax Hc.
  - inversion Hc; subst. cbn [range_from for_each map app].
    rewrite Nat.add_0_r, take_drop. reflexivity.
  - cbn [range_from] in Hc.
    inversion Hc
      as [|? ? data rc out outs' ? s1 ? Hlenw Hval Hconv Hrest]; subst.
    cbn [range_from for_each].
    assert (Hstep : dump_conv_table_step L cd (length data) (be_uint data) tbl s
                    = (Ok (<[Z.to_nat (be_uint data) := Some out]> tbl), s1)).
    { unfold dump_conv_table_step.
      rewrite (bind_ok _ _ _ _ _
                 (to_bytes_ok _ _ s (be_uint_range data))).
      rewrite be_bytes_be_uint, (bind_ok _ _ _ _ _ Hconv).
      apply setitem_ok. lia. }
    rewrite (bind_ok _ _ _ _ _ Hstep).
    rewrite (IH _ _ _ outs' s'); [| lia | rewrite length_insert; lia | lia
                                  | exact Hrest].
    do 2 f_equal. cbn [map]. apply table_after_step; lia.
Qed.

Lemma converts_length cd w cps s outs s' :
  converts L cd w cps s outs s' -> length outs = length cps.
Proof. induction 1; cbn; congruence. Qed.

Lemma lookup_map {A B} (f : A -> B) (l : list A) i x :
  l !! i = Some x -> map f l !! i = Some (f x).
Proof.
  revert i. induction l as [|a l IH]; intros [|i] H; try discriminate.
  - inversion H; subst. reflexivity.
  - cbn in *. apply IH. exact H.
Qed.

Lemma converts_lookup cd w cps s outs s' :
  converts L cd w cps s outs s' ->
  forall i cp, cps !! i = Some cp ->
    exists data rc out s0 s0',
      length data = w /\ be_uint data = cp /\
      iconv L cd data s0 = (Ok (rc, out), s0') /\
      outs !! i = Some out.
Proof.
  induction 1 as [|cp0 cps data rc out outs s s1 s2 Hlen Hval Hconv Hrest IH];
    intros i cp Hi.
  - destruct i; discriminate.
  - destruct i as [|i]; cbn in Hi.
    + inversion Hi; subst. exists data, rc, out, s, s1. auto.
    + destruct (IH i cp Hi) as (d & r & o & a & b & H1 & H2 & H3 & H4).
      exists d, r, o, a, b. auto.
Qed.

(** C1: once the open has returned a descriptor without the sentinel:
    whenever [dump_conv_table] returns, it returns a table; the table has
    256 entries when [es] is 0x1100 and 65536 otherwise; its entries are,
    in order, the outputs of the calls of [iconv] made for the code points
    0, 1, ..., N-1 in this order, each on the big-endian representation of
    the code point on one byte (0x1100) or two (otherwise), so that entry
    [i] is the output of a call of [iconv] on the representation of [i];
    the descriptor is closed after the last of them.  And whenever these
    conversions and the close all return, [dump_conv_table] returns that
    table. *)
Theorem dump_conv_table_builds_table ccsid es s cd s1 :
  iconv_open L 1200 ccsid s = (Ok cd, s1) ->
  c_int (rtn cd) <> -1 ->
  let N := if es =? 0x1100 then 256 else 65536 in
  let w := if es =? 0x1100 then 1%nat else 2%nat in
  (forall r s',
     dump_conv_table L ccsid es s = (Ok r, s') ->
     exists tbl outs s2 rc,
       r = Some tbl /\
       tbl = map Some outs /\
       Z.of_nat (length tbl) = N /\
       converts L cd w (range 0 N) s1 outs s2 /\
       iconv_close L cd s2 = (Ok rc, s') /\
       forall i, 0 <= i < N ->
         exists data rc_i out s0 s0',
           length data = w /\ be_uint data = i /\
           iconv L cd data s0 = (Ok (rc_i, out), s0') /\
           tbl !! Z.to_nat i = Some (Some out)) /\
  (forall outs s2 rc s',
     converts L cd w (range 0 N) s1 outs s2 ->
     iconv_close L cd s2 = (Ok rc, s') ->
     dump_conv_table L ccsid es s = (Ok (Some (map Some outs)), s')).
Proof.
  intros Hopen Hrtn N w.
  assert (Hdump : dump_conv_table L ccsid es s
    = bind (for_each (range 0 N) (dump_conv_table_step L cd w)
              (replicate (Z.to_nat N) None))
        (fun table1 => bind (iconv_close L cd)
                         (fun _ => ret (Some table1))) s1).
  { unfold dump_conv_table. rewrite (bind_ok _ _ _ _ _ Hopen).
    apply Z.eqb_neq in Hrtn. rewrite Hrtn. unfold N, w.
    destruct (es =? 0x1100); reflexivity. }
  assert (HN : N = 256 /\ w = 1%nat \/ N = 65536 /\ w = 2%nat).
  { unfold N, w. destruct (es =? 0x1100); auto. }
  assert (Hpow : N <= 256 ^ Z.of_nat w)
    by (destruct HN as [[-> ->]|[-> ->]]; reflexivity).
  assert (HN0 : 0 <= N) by (destruct HN as [[-> _]|[-> _]]; lia).
  clearbody N w. rewrite Hdump. clear Hdump. unfold range.
  rewrite Z.sub_0_r. split.
  - intros r s' H.
    apply bind_inv in H as [(tbl & s2 & Hloop & H)|(e & _ & He)];
      [|discriminate].
    apply bind_inv in H as [(rc & s3 & Hclose & H)|(e & _ & He)];
      [|discriminate].
    inversion H; subst; clear H.
    apply dump_loop_inv in Hloop as (outs & Hc & ->);
      [|lia|rewrite length_replicate; lia].
    pose proof (converts_length _ _ _ _ _ _ Hc) as Hlen.
    rewrite length_range_from in Hlen.
    assert (Htbl : take (Z.to_nat 0) (replicate (Z.to_nat N) None)
                   ++ map Some outs
                   ++ drop (Z.to_nat 0 + Z.to_nat N)
                        (replicate (Z.to_nat N) None)
                   = map Some outs).
    { change (Z.to_nat 0) with 0%nat. cbn [take app Nat.add].
      rewrite drop_ge by (rewrite length_replicate; lia).
      apply app_nil_r. }
    rewrite Htbl.
    exists (map Some outs), outs, s2, rc.
    split; [reflexivity|]. split; [reflexivity|].
    split; [rewrite length_map; lia|].
    split; [exact Hc|]. split; [exact Hclose|].
    intros i Hi.
    destruct (converts_lookup _ _ _ _ _ _ Hc (Z.to_nat i) i)
      as (data & rc_i & out & s0 & s0' & H1 & H2 & H3 & H4).
    { rewrite range_from_lookup by lia. f_equal. lia. }
    exists data, rc_i, out, s0, s0'.
    repeat (split; [assumption|]).
    apply lookup_map. exact H4.
  - intros outs s2 rc s' Hc Hclose.
    assert (H0 : 0 <= 0) by lia.
    assert (H1 : (Z.to_nat 0 + Z.to_nat N
                  <= length (replicate (Z.to_nat N) (@None bytes)))%nat)
      by (rewrite length_replicate; lia).
    assert (H2 : 0 + Z.of_nat (Z.to_nat N) <= 256 ^ Z.of_nat w) by lia.
    rewrite (bind_ok _ _ _ _ _
               (dump_loop_run cd w (Z.to_nat N) 0 _ s1 outs s2 H0 H1 H2 Hc)).
    rewrite (bind_ok _ _ _ _ _ Hclose).
    change (Z.to_nat 0) with 0%nat. cbn [take app Nat.add].
    rewrite drop_ge by (rewrite length_replicate; lia).
    rewrite app_nil_r. reflexivity.
Qed.

(** ** The text report *)

Lemma for_each_ok_all {A S} (body : A -> S -> M F S) l :
  forall acc s acc' s',
    for_each l body acc s = (Ok acc', s') ->
    forall x, x ∈ l ->
      exists acc0 s0 acc1 s1, body x acc0 s0 = (Ok acc1, s1).
Proof.
  induction l as [|y l IH]; intros acc s acc' s' H x Hx.
  - apply elem_of_nil in Hx. contradiction.
  - cbn [for_each] in H.
    apply bind_inv in H as [(acc1 & s1 & Hy & Hrest)|(e & _ & He)];
      [|discriminate].
    apply elem_of_cons in Hx as [->|Hx]; [eauto|].
    exact (IH _ _ _ _ Hrest x Hx).
Qed.

Lemma elem_of_zip_r {A B} (l1 : list A) (l2 : list B) y :
  length l1 = length l2 -> y ∈ l2 -> exists x, (x, y) ∈ zip l1 l2.
Proof.
  revert l1. induction l2 as [|b l2 IH]; intros l1 Hlen Hy.
  - apply elem_of_nil in Hy. contradiction.
  - destruct l1 as [|a l1]; [discriminate|]. cbn in Hlen.
    apply elem_of_cons in Hy as [->|Hy].
    + exists a. apply list_elem_of_here.
    + destruct (IH l1 ltac:(lia) Hy) as [x Hx].
      exists x. apply list_elem_of_further. exact Hx.
Qed.

Lemma elem_of_enumerate {A} (l : list A) y :
  y ∈ l -> exists i, (i, y) ∈ enumerate l.
Proof.
  intros Hy. apply elem_of_zip_r; [|exact Hy].
  unfold range. rewrite length_range_from. lia.
Qed.

Lemma name_handlers_TypeError u : name_handlers (F:=F) U u TypeError = None.
Proof. reflexivity. Qed.

Lemma write_conv_txt_entry_TypeError w file cp bs u u0 (s : state F) :
  utf_16be_decode bs = Some u -> length u <> 1%nat ->
  write_conv_txt_entry U w file (cp, Some bs) u0 s = (Raise TypeError, s).
Proof.
  intros Hd Hlen. unfold write_conv_txt_entry. rewrite Hd.
  destruct u as [|c [|c' u]]; [reflexivity|cbn in Hlen; lia|reflexivity].
Qed.

Lemma write_conv_txt_entry_ok w file cp out u0 (s : state F) u1 s' :
  write_conv_txt_entry U w file (cp, out) u0 s = (Ok u1, s') ->
  exists bs, out = Some bs /\
    (utf_16be_decode bs = None \/ exists c, utf_16be_decode bs = Some [c]).
Proof.
  intros H. destruct out as [bs|]; [|discriminate]. exists bs.
  split; [reflexivity|].
  destruct (utf_16be_decode bs) as [u|] eqn:Hd; [|left; reflexivity].
  right. destruct u as [|c [|c' u]]; [|eauto|].
  - rewrite (write_conv_txt_entry_TypeError w file cp bs [] u0 s Hd) in H
      by (cbn; lia).
    discriminate.
  - rewrite (write_conv_txt_entry_TypeError w file cp bs _ u0 s Hd) in H
      by (cbn; lia).
    discriminate.
Qed.

(** C10: [write_conv_txt] returns only on tables whose every entry is a
    byte string that either does not decode as UTF-16BE or decodes to
    exactly one character; on an entry that decodes to a string of another
    length the name lookup raises [TypeError], which none of the handlers
    catches, so that the function raises on any table with such an entry;
    the empty byte string is such an entry. *)
Theorem write_conv_txt_partial tbl file (s : state F) :
  (forall s',
     write_conv_txt U (Some tbl) file s = (Ok tt, s') ->
     Forall (fun entry =>
               exists bs, entry = Some bs /\
                 (utf_16be_decode bs = None \/
                  exists c, utf_16be_decode bs = Some [c])) tbl) /\
  (forall bs u,
     Some bs ∈ tbl -> utf_16be_decode bs = Some u -> length u <> 1%nat ->
     exists e s', write_conv_txt U (Some tbl) file s = (Raise e, s')) /\
  (forall w cp bs u u0,
     utf_16be_decode bs = Some u -> length u <> 1%nat ->
     name_handlers (F:=F) U (Some u) TypeError = None /\
     write_conv_txt_entry U w file (cp, Some bs) u0 s
     = (Raise TypeError, s)) /\
  write_conv_txt U (Some [Some []]) file s = (Raise TypeError, s).
Proof.
  assert (Hok : forall s',
     write_conv_txt U (Some tbl) file s = (Ok tt, s') ->
     Forall (fun entry =>
               exists bs, entry = Some bs /\
                 (utf_16be_decode bs = None \/
                  exists c, utf_16be_decode bs = Some [c])) tbl).
  { intros s' H. unfold write_conv_txt in H. cbn [len default] in H.
    unfold bind at 1 in H. cbn [ret] in H.
    apply bind_inv in H as [(u & s1 & Hloop & _)|(e & _ & He)];
      [|discriminate].
    apply Forall_forall. intros entry Hin.
    destruct (elem_of_enumerate tbl entry Hin) as [i Hi].
    destruct (for_each_ok_all _ _ _ _ _ _ Hloop _ Hi)
      as (acc0 & s0 & acc1 & s2 & Hentry).
    exact (write_conv_txt_entry_ok _ _ _ _ _ _ _ _ Hentry). }
  split; [exact Hok|]. split; [|split].
  - intros bs u Hin Hd Hlen.
    destruct (write_conv_txt U (Some tbl) file s) as [[[]|e] s'] eqn:E;
      [|eauto].
    exfalso. specialize (Hok s' eq_refl).
    rewrite Forall_forall in Hok.
    destruct (Hok _ Hin) as (bs' & [= <-] & [Hnone|[c Hc]]); [congruence|].
    rewrite Hd in Hc. inversion Hc; subst. apply Hlen. reflexivity.
  - intros w cp bs u u0 Hd Hlen. split; [reflexivity|].
    apply write_conv_txt_entry_TypeError with (u := u); assumption.
  - reflexivity.
Qed.

(** C9, on the code: for an entry whose bytes are not valid UTF-16BE the
    handler of [ValueError], which comes first, takes the
    [UnicodeDecodeError]: the entry raises [UnboundLocalError] when no
    earlier entry has bound [u], and otherwise prints the line with the
    name derived from the character of the previous entry, '<control>' or
    '<unknown>'; '<error>' is never printed. *)
Theorem write_conv_txt_error_marker_unreachable w file cp bs u (s : state F) :
  utf_16be_decode bs = None ->
  write_conv_txt_entry U w file (cp, Some bs) u s
  = match u with
    | None => (Raise UnboundLocalError, s)
    | Some [c] =>
        bind (print_to file
                (str "0x" ++ fmt_x w cp ++ [9] ++ str "0x" ++ bytes_hex bs
                 ++ [9] ++ (if bool_decide (str (ud_category U c) = str "Cc")
                            then str "<control>" else str "<unknown>")))
             (fun _ => ret u) s
    | Some _ => (Raise TypeError, s)
    end.
Proof.
  intros Hd. unfold write_conv_txt_entry. rewrite Hd.
  destruct u as [[|c [|c' u]]|]; try reflexivity.
  cbv beta iota delta [bind try_except raise name_handlers local
                         unicodedata_category ret is_ValueError fst snd].
  destruct (bool_decide (str (ud_category U c) = str "Cc")); reflexivity.
Qed.

(** ** The driver *)

Lemma driver_app ccsids1 ccsids2 s :
  driver L U (ccsids1 ++ ccsids2) s
  = bind (driver L U ccsids1) (fun _ => driver L U ccsids2) s.
Proof.
  unfold driver. revert s.
  induction ccsids1 as [|c l IH]; intros s; [reflexivity|].
  cbn [app for_each]. unfold bind.
  destruct (driver_body L U c s) as [[[]|e] s1]; [|reflexivity].
  rewrite IH. reflexivity.
Qed.

(** C8, as the code has it: nothing in the loop catches an exception.
    When the work for a CCSID raises, the loop ends there with that
    exception, in the state the work left, and the CCSIDs that follow are
    not processed; the loop goes on to the next CCSID only after work that
    returned. *)
Theorem driver_stops_at_first_error ccsids1 c ccsids2 s s1 e s2 :
  driver L U ccsids1 s = (Ok tt, s1) ->
  driver_body L U c s1 = (Raise e, s2) ->
  driver L U (ccsids1 ++ c :: ccsids2) s = (Raise e, s2).
Proof.
  intros H1 Hc. rewrite driver_app, (bind_ok _ _ _ _ _ H1).
  unfold driver. cbn [for_each]. apply bind_raise. exact Hc.
Qed.

(** * Further properties *)

Lemma wp_eq {A} (m : M F A) (Q : result A -> state F -> Prop) s r s' :
  m s = (r, s') -> Q r s' -> wp m Q s.
Proof. unfold wp. intros ->. exact id. Qed.

Lemma wp_and {A} (m : M F A) (Q1 Q2 : result A -> state F -> Prop) s :
  wp m Q1 s -> wp m Q2 s -> wp m (fun r s' => Q1 r s' /\ Q2 r s') s.
Proof. unfold wp. auto. Qed.

Lemma range_from_split a n done x rest :
  range_from a n = done ++ x :: rest ->
  x = a + Z.of_nat (length done) /\ (length done < n)%nat.
Proof.
  intros H.
  assert (Hn : (length done < n)%nat).
  { apply (f_equal length) in H.
    rewrite length_range_from, length_app in H. cbn in H. lia. }
  split; [|exact Hn].
  pose proof (range_from_lookup a n (length done) Hn) as Hl.
  rewrite H, list_lookup_middle in Hl by reflexivity. congruence.
Qed.

(** ** Symbol resolution *)

(** X1: [load_symbol] touches neither the attributes nor the output, and
    ends in one of three ways: it returns the pointer [_ILESYMX] stored,
    after a load that did not answer all-ones and a lookup that answered
    [ILESYM_PROCEDURE]; or the load answered all-ones and it raises
    "not found" without looking the symbol up; or the lookup answered
    something else than a procedure and it raises "procedure not found". *)
Theorem load_symbol_outcome library srvpgm symbol s :
  let obj := (library ++ "/" ++ srvpgm)%string in
  let r := load_symbol L library srvpgm symbol s in
  ptr_attr r.2 = ptr_attr s /\ stdout r.2 = stdout s /\ fs r.2 = fs s /\
  ((exists actgrp rc p,
      r.1 = Ok p /\
      new_events s r.2
      = [EvILELOADX obj ILELOAD_LIBOBJ actgrp;
         EvILESYMX (c_ulonglong actgrp) symbol rc p] /\
      c_ulonglong actgrp <> 0xffffffffffffffff /\
      c_int rc = ILESYM_PROCEDURE) \/
   (exists actgrp,
      r.1 = Raise (OSError (obj ++ " not found")) /\
      new_events s r.2 = [EvILELOADX obj ILELOAD_LIBOBJ actgrp] /\
      c_ulonglong actgrp = 0xffffffffffffffff) \/
   (exists actgrp rc p,
      r.1 = Raise (OSError (symbol ++ " procedure not found in " ++ obj)) /\
      new_events s r.2
      = [EvILELOADX obj ILELOAD_LIBOBJ actgrp;
         EvILESYMX (c_ulonglong actgrp) symbol rc p] /\
      c_ulonglong actgrp <> 0xffffffffffffffff /\
      c_int rc <> ILESYM_PROCEDURE)).
Proof.
  intros obj r. unfold r.
  change (wp (load_symbol L library srvpgm symbol)
    (fun r1 s' =>
       ptr_attr s' = ptr_attr s /\ stdout s' = stdout s /\ fs s' = fs s /\
       ((exists actgrp rc p,
           r1 = Ok p /\
           new_events s s'
           = [EvILELOADX obj ILELOAD_LIBOBJ actgrp;
              EvILESYMX (c_ulonglong actgrp) symbol rc p] /\
           c_ulonglong actgrp <> 0xffffffffffffffff /\
           c_int rc = ILESYM_PROCEDURE) \/
        (exists actgrp,
           r1 = Raise (OSError (obj ++ " not found")) /\
           new_events s s' = [EvILELOADX obj ILELOAD_LIBOBJ actgrp] /\
           c_ulonglong actgrp = 0xffffffffffffffff) \/
        (exists actgrp rc p,
           r1 = Raise (OSError (symbol ++ " procedure not found in " ++ obj)) /\
           new_events s s'
           = [EvILELOADX obj ILELOAD_LIBOBJ actgrp;
              EvILESYMX (c_ulonglong actgrp) symbol rc p] /\
           c_ulonglong actgrp <> 0xffffffffffffffff /\
           c_int rc <> ILESYM_PROCEDURE))) s).
  repeat wp_step; rc_facts; (do 3 (split; [reflexivity|])).
  - right. left. apply Z.eqb_eq in Heqb.
    eexists. split; [reflexivity|]. split; [ev_norm; reflexivity|]. exact Heqb.
  - right. right. apply Z.eqb_neq in Heqb. destruct a0 as [rc p].
    exists a, rc, p. split; [reflexivity|].
    split; [ev_norm; reflexivity|]. split; assumption.
  - left. apply Z.eqb_neq in Heqb. destruct a0 as [rc p].
    exists a, rc, p. split; [reflexivity|].
    split; [ev_norm; reflexivity|]. split; assumption.
Qed.

(** ** What the bridge functions can raise *)

Ltac raise_cases :=
  repeat wp_step; try apply errno_buf_ne;
  let e := fresh "e" in
  let He := fresh "He" in
  intros e He; inversion He; subst; clear He;
  first [ left; eexists; reflexivity
        | right; split; [assumption|eexists; reflexivity] ].

Lemma get_ile_errno_raises s :
  wp (get_ile_errno L)
     (fun r _ => forall e, r = Raise e ->
        (exists msg, e = RuntimeError msg) \/
        (ptr_attr s !! f_get_ile_errno = None /\ exists msg, e = OSError msg))
     s.
Proof. unfold get_ile_errno. raise_cases. Qed.

Lemma iconv_open_raises out_ccsid in_ccsid s :
  wp (iconv_open L out_ccsid in_ccsid)
     (fun r _ => forall e, r = Raise e ->
        (exists msg, e = RuntimeError msg) \/
        (ptr_attr s !! f_iconv_open = None /\ exists msg, e = OSError msg))
     s.
Proof. unfold iconv_open. raise_cases. Qed.

Lemma iconv_close_raises cd s :
  wp (iconv_close L cd)
     (fun r _ => forall e, r = Raise e ->
        (exists msg, e = RuntimeError msg) \/
        (ptr_attr s !! f_iconv_close = None /\ exists msg, e = OSError msg))
     s.
Proof. unfold iconv_close. raise_cases. Qed.

Lemma iconv_raises cd data s :
  wp (iconv L cd data)
     (fun r _ => forall e, r = Raise e ->
        (exists msg, e = RuntimeError msg) \/
        (ptr_attr s !! f_iconv = None /\ exists msg, e = OSError msg))
     s.
Proof. unfold iconv. raise_cases. Qed.

Lemma get_encoding_scheme_raises ccsid s :
  wp (get_encoding_scheme L ccsid)
     (fun r _ => forall e, r = Raise e -> exists msg, e = OSError msg) s.
Proof.
  unfold get_encoding_scheme. repeat wp_step;
    intros e He; inversion He; subst; eexists; reflexivity.
Qed.

(** X2: the four functions that go through [_ILECALLX] raise nothing but
    [RuntimeError], except for the [OSError] of a resolution, which can
    only happen while their symbol is not cached; [get_encoding_scheme]
    raises nothing but [OSError]. *)
Theorem bridge_exceptions s e :
  ((get_ile_errno L s).1 = Raise e ->
   (exists msg, e = RuntimeError msg) \/
   (ptr_attr s !! f_get_ile_errno = None /\ exists msg, e = OSError msg)) /\
  (forall out_ccsid in_ccsid,
     (iconv_open L out_ccsid in_ccsid s).1 = Raise e ->
     (exists msg, e = RuntimeError msg) \/
     (ptr_attr s !! f_iconv_open = None /\ exists msg, e = OSError msg)) /\
  (forall cd,
     (iconv_close L cd s).1 = Raise e ->
     (exists msg, e = RuntimeError msg) \/
     (ptr_attr s !! f_iconv_close = None /\ exists msg, e = OSError msg)) /\
  (forall cd data,
     (iconv L cd data s).1 = Raise e ->
     (exists msg, e = RuntimeError msg) \/
     (ptr_attr s !! f_iconv = None /\ exists msg, e = OSError msg)) /\
  (forall ccsid,
     (get_encoding_scheme L ccsid s).1 = Raise e ->
     exists msg, e = OSError msg).
Proof.
  split; [|split; [|split; [|split]]].
  - apply (get_ile_errno_raises s).
  - intros o i. apply (iconv_open_raises o i s).
  - intros cd. apply (iconv_close_raises cd s).
  - intros cd data. apply (iconv_raises cd data s).
  - intros ccsid. apply (get_encoding_scheme_raises ccsid s).
Qed.

(** ** What the table builder can raise *)

Lemma bridge_error_of {A} (r : result A) e (P : Prop) :
  (forall e', r = Raise e' ->
     (exists msg, e' = RuntimeError msg) \/ (P /\ exists msg, e' = OSError msg)) ->
  r = Raise e -> bridge_error e.
Proof.
  intros H He. destruct (H e He) as [[msg ->]|[_ [msg ->]]]; exact I.
Qed.

Lemma dump_conv_table_step_raises cd w x (tbl : list (option bytes)) s :
  0 <= x < 256 ^ Z.of_nat w -> x < Z.of_nat (length tbl) ->
  wp (dump_conv_table_step L cd w x tbl)
     (fun r _ => match r with
                 | Ok tbl' => length tbl' = length tbl
                 | Raise e => bridge_error e
                 end) s.
Proof.
  intros Hx Hlen. unfold dump_conv_table_step.
  apply wp_bind. eapply wp_eq; [apply to_bytes_ok; exact Hx|].
  apply wp_bind. eapply wp_conseq; [apply iconv_raises|].
  intros [[rc out]|e] s1 H; cbn beta iota.
  - eapply wp_eq; [apply setitem_ok; lia|]. apply length_insert.
  - exact (bridge_error_of _ e _ H eq_refl).
Qed.

Lemma dump_conv_table_raises ccsid es s :
  wp (dump_conv_table L ccsid es)
     (fun r _ => forall e, r = Raise e -> bridge_error e) s.
Proof.
  unfold dump_conv_table. apply wp_bind.
  eapply wp_conseq; [apply iconv_open_raises|].
  intros [cd|e] s1 H; cbn beta iota.
  2:{ intros e' [= <-]. exact (bridge_error_of _ e _ H eq_refl). }
  clear H. destruct (c_int (rtn cd) =? -1).
  { repeat wp_step. intros e He. discriminate. }
  set (N := if es =? 0x1100 then 256 else 65536).
  set (w := if es =? 0x1100 then 1%nat else 2%nat).
  assert (HN : N <= 256 ^ Z.of_nat w /\ 0 <= N)
    by (unfold N, w; destruct (es =? 0x1100); split; lia).
  replace (let '(max_cp, cp_size) :=
             if es =? 0x1100 then (256, 1%nat) else (65536, 2%nat) in _)
    with (bind (for_each (range 0 N) (dump_conv_table_step L cd w)
                  (replicate (Z.to_nat N) None))
            (fun table1 => bind (iconv_close L cd)
                             (fun _ => ret (Some table1))))
    by (unfold N, w; destruct (es =? 0x1100); reflexivity).
  clearbody N w. apply wp_bind.
  apply (wp_for_each
           (fun _ (tbl : list (option bytes)) _ => length tbl = Z.to_nat N)).
  - intros done x rest tbl s2 Hl Htbl. unfold range in Hl.
    apply range_from_split in Hl as [-> Hd].
    eapply wp_conseq; [apply dump_conv_table_step_raises; lia|].
    intros [tbl'|e] s3 H; cbn beta iota; [congruence|].
    intros e' [= <-]. exact H.
  - intros tbl s2 _. cbn beta iota. apply wp_bind.
    eapply wp_conseq; [apply iconv_close_raises|].
    intros [rc|e] s3 H; cbn beta iota.
    + apply wp_ret. intros e He. discriminate.
    + intros e' [= <-]. exact (bridge_error_of _ e _ H eq_refl).
  - apply length_replicate.
Qed.

(** X3: [dump_conv_table] raises nothing but the [OSError] of a resolution
    and the [RuntimeError] of a failed call: in its loop [to_bytes] never
    overflows and the store into the table is never out of range. *)
Theorem dump_conv_table_exceptions ccsid es s e :
  (dump_conv_table L ccsid es s).1 = Raise e -> bridge_error e.
Proof. apply (dump_conv_table_raises ccsid es s). Qed.

(** ** The calls of the table builder *)

Ltac call_cases :=
  repeat wp_step; eexists; (split; [trace_eq|]);
  first
    [ left; split; [reflexivity|eexists; reflexivity]
    | right; eexists; split;
      [reflexivity|first [intros ? [= <-]; reflexivity | intros ? [=]]]
    | right; reflexivity ].

Lemma iconv_open_calls out_ccsid in_ccsid s :
  wp (iconv_open L out_ccsid in_ccsid)
     (fun r s' => exists evs, trace s' = trace s ++ evs /\
        ((omap call_of evs = [] /\ exists e, r = Raise e) \/
         exists cd,
           omap call_of evs
           = [COpen (mk_qtqcode_t (c_int out_ccsid) 0 0 0 0 0)
                    (mk_qtqcode_t (c_int in_ccsid) 0 0 0 0 0) cd] /\
           forall cd', r = Ok cd' -> cd' = cd)) s.
Proof. unfold iconv_open. call_cases. Qed.

Lemma iconv_calls cd data s :
  wp (iconv L cd data)
     (fun r s' => exists evs, trace s' = trace s ++ evs /\
        ((omap call_of evs = [] /\ exists e, r = Raise e) \/
         omap call_of evs
         = [CConv cd (data ++ [x00]) (c_uint (Z.of_nat (length data))) 8])) s.
Proof. unfold iconv. call_cases. Qed.

Lemma iconv_close_calls cd s :
  wp (iconv_close L cd)
     (fun r s' => exists evs, trace s' = trace s ++ evs /\
        ((omap call_of evs = [] /\ exists e, r = Raise e) \/
         omap call_of evs = [CClose cd])) s.
Proof. unfold iconv_close. call_cases. Qed.

Lemma dump_conv_table_step_calls cd w x (tbl : list (option bytes)) s :
  (w = 1 \/ w = 2)%nat ->
  0 <= x < 256 ^ Z.of_nat w -> x < Z.of_nat (length tbl) ->
  wp (dump_conv_table_step L cd w x tbl)
     (fun r s' => exists evs, trace s' = trace s ++ evs /\
        ((omap call_of evs = [] /\ exists e, r = Raise e) \/
         omap call_of evs = [CConv cd (be_bytes w x ++ [x00]) (Z.of_nat w) 8])
        /\ forall tbl', r = Ok tbl' -> length tbl' = length tbl) s.
Proof.
  intros Hw Hx Hlen. unfold dump_conv_table_step.
  apply wp_bind. eapply wp_eq; [apply to_bytes_ok; exact Hx|].
  apply wp_bind. eapply wp_conseq; [apply iconv_calls|].
  assert (Hin : c_uint (Z.of_nat (length (be_bytes w x))) = Z.of_nat w).
  { rewrite length_be_bytes. destruct Hw as [-> | ->]; reflexivity. }
  rewrite Hin.
  intros [[rc out]|e] s1 (evs & Htr & Hc); cbn beta iota.
  - eapply wp_eq; [apply setitem_ok; lia|].
    exists evs. split; [exact Htr|]. split.
    + destruct Hc as [[_ [e He]]|Hc]; [discriminate|right; exact Hc].
    + intros tbl' [= <-]. apply length_insert.
  - exists evs. split; [exact Htr|]. split; [|intros ? [=]].
    destruct Hc as [[Hc _]|Hc]; [left; eauto|right; exact Hc].
Qed.

Lemma conversion_script_prefix cd w N done x rest :
  range 0 N = done ++ x :: rest ->
  (map (fun cp => CConv cd (be_bytes w cp ++ [x00]) (Z.of_nat w) 8) done
     `prefix_of` conversion_script cd w N) /\
  (map (fun cp => CConv cd (be_bytes w cp ++ [x00]) (Z.of_nat w) 8)
       (done ++ [x])
     `prefix_of` conversion_script cd w N).
Proof.
  intros H. unfold conversion_script. rewrite H. split.
  - rewrite map_app, <- app_assoc. apply prefix_app_r. reflexivity.
  - replace (done ++ x :: rest) with ((done ++ [x]) ++ rest)
      by (rewrite <- app_assoc; reflexivity).
    rewrite (map_app _ (done ++ [x])), <- app_assoc.
    apply prefix_app_r. reflexivity.
Qed.

(** X4: the calls [dump_conv_table] makes through [_ILECALLX] are either
    none (the open could not be resolved), or one open for the pair
    (1200, CCSID) followed by a prefix of the script on the descriptor
    [cd] that the open stored: one conversion per code point 0, 1, ...,
    each of the code point's bytes with a NUL behind, input length the
    width and output length 8, and then one close.  The script is complete
    when a table is returned, and empty when [None] is: no conversion
    follows the close, no other descriptor is used, and a run that a
    conversion ends has not closed the descriptor. *)
Theorem dump_conv_table_call_discipline ccsid es s :
  let N := if es =? 0x1100 then 256 else 65536 in
  let w := if es =? 0x1100 then 1%nat else 2%nat in
  let r := dump_conv_table L ccsid es s in
  let calls := omap call_of (new_events s r.2) in
  (calls = [] /\ exists e, r.1 = Raise e) \/
  exists cd pre,
    calls = COpen (mk_qtqcode_t 1200 0 0 0 0 0)
                  (mk_qtqcode_t (c_int ccsid) 0 0 0 0 0) cd :: pre /\
    pre `prefix_of` conversion_script cd w N /\
    (forall tbl, r.1 = Ok (Some tbl) -> pre = conversion_script cd w N) /\
    (r.1 = Ok None -> pre = [] /\ c_int (rtn cd) = -1) /\
    (forall e, r.1 = Raise e -> CClose cd ∈ pre ->
       pre = conversion_script cd w N).
Proof.
  intros N w r calls. unfold calls, r. clear r calls.
  set (open_call := COpen (mk_qtqcode_t 1200 0 0 0 0 0)
                          (mk_qtqcode_t (c_int ccsid) 0 0 0 0 0)).
  set (conv := fun cd cp => CConv cd (be_bytes w cp ++ [x00]) (Z.of_nat w) 8).
  change (wp (dump_conv_table L ccsid es)
    (fun r1 s' =>
       (omap call_of (new_events s s') = [] /\ exists e, r1 = Raise e) \/
       exists cd pre,
         omap call_of (new_events s s') = open_call cd :: pre /\
         pre `prefix_of` conversion_script cd w N /\
         (forall tbl, r1 = Ok (Some tbl) -> pre = conversion_script cd w N) /\
         (r1 = Ok None -> pre = [] /\ c_int (rtn cd) = -1) /\
         (forall e, r1 = Raise e -> CClose cd ∈ pre ->
            pre = conversion_script cd w N)) s).
  assert (Hnoclose : forall cd l, CClose cd ∈ map (conv cd) l -> False).
  { intros cd l Hin. induction l as [|a l IH]; cbn in Hin.
    - apply elem_of_nil in Hin. exact Hin.
    - apply elem_of_cons in Hin as [Hin|Hin]; [discriminate|auto]. }
  unfold dump_conv_table. apply wp_bind.
  eapply wp_conseq; [apply iconv_open_calls|].
  intros [cd|e] s1 (evs1 & Htr1 & Hc1); cbn beta iota.
  2:{ rewrite (new_events_app _ _ _ Htr1).
      destruct Hc1 as [[Hc1 _]|(cd & Hc1 & _)].
      - left. split; [exact Hc1|eauto].
      - right. exists cd, []. split; [exact Hc1|].
        split; [apply prefix_nil|]. split; [intros ? [=]|].
        split; [intros [=]|]. intros ? _ Hin.
        apply elem_of_nil in Hin. contradiction. }
  destruct Hc1 as [[_ [e He]]|(cd0 & Hc1 & Hcd)]; [discriminate|].
  rewrite <- (Hcd cd eq_refl) in Hc1. clear cd0 Hcd.
  destruct (c_int (rtn cd) =? -1) eqn:Hrtn.
  { repeat wp_step. right. exists cd, [].
    unfold new_events. cbn [trace]. rewrite Htr1, drop_app_length.
    split; [exact Hc1|]. split; [apply prefix_nil|].
    split; [intros ? [=]|]. apply Z.eqb_eq in Hrtn.
    split; [auto|]. intros ? [=]. }
  assert (HN : N <= 256 ^ Z.of_nat w /\ 0 <= N /\ (w = 1 \/ w = 2)%nat)
    by (unfold N, w; destruct (es =? 0x1100); repeat split; auto; lia).
  replace (let '(max_cp, cp_size) :=
             if es =? 0x1100 then (256, 1%nat) else (65536, 2%nat) in _)
    with (bind (for_each (range 0 N) (dump_conv_table_step L cd w)
                  (replicate (Z.to_nat N) None))
            (fun table1 => bind (iconv_close L cd)
                             (fun _ => ret (Some table1))))
    by (unfold N, w; destruct (es =? 0x1100); reflexivity).
  clearbody N w. apply wp_bind.
  apply (wp_for_each
           (fun done (tbl : list (option bytes)) s2 =>
              length tbl = Z.to_nat N /\
              exists evs, trace s2 = trace s ++ evs /\
                omap call_of evs = open_call cd :: map (conv cd) done)).
  - intros done x rest tbl s2 Hl (Htbl & evs & Htr & Hc).
    destruct (conversion_script_prefix cd w N done x rest Hl) as [Hp1 Hp2].
    unfold range in Hl. apply range_from_split in Hl as [Hx Hd].
    eapply wp_conseq;
      [apply (dump_conv_table_step_calls cd w x tbl s2); lia|].
    intros [tbl'|e] s3 (evs' & Htr' & Hc' & Hlen'); cbn beta iota.
    + split; [rewrite (Hlen' _ eq_refl); exact Htbl|].
      destruct Hc' as [[_ [e He]]|Hc']; [discriminate|].
      exists (evs ++ evs'). split; [rewrite Htr', Htr, app_assoc; reflexivity|].
      rewrite omap_app, Hc, Hc', map_app. reflexivity.
    + right. exists cd.
      assert (Htr3 : trace s3 = trace s ++ (evs ++ evs'))
        by (rewrite Htr', Htr, app_assoc; reflexivity).
      rewrite (new_events_app _ _ _ Htr3), omap_app, Hc.
      destruct Hc' as [[Hc' _]|Hc']; rewrite Hc'.
      * exists (map (conv cd) done). rewrite app_nil_r.
        split; [reflexivity|]. split; [exact Hp1|].
        split; [intros ? [=]|]. split; [intros [=]|].
        intros ? _ Hin. destruct (Hnoclose _ _ Hin).
      * exists (map (conv cd) (done ++ [x])).
        split; [rewrite map_app; reflexivity|]. split; [exact Hp2|].
        split; [intros ? [=]|]. split; [intros [=]|].
        intros ? _ Hin. destruct (Hnoclose _ _ Hin).
  - intros tbl s2 (Htbl & evs & Htr & Hc). cbn beta iota. apply wp_bind.
    eapply wp_conseq; [apply iconv_close_calls|].
    intros [rc|e] s3 (evs' & Htr' & Hc'); cbn beta iota.
    + apply wp_ret. right. exists cd, (conversion_script cd w N).
      destruct Hc' as [[_ [e He]]|Hc']; [discriminate|].
      assert (Htr3 : trace s3 = trace s ++ (evs ++ evs'))
        by (rewrite Htr', Htr, app_assoc; reflexivity).
      rewrite (new_events_app _ _ _ Htr3), omap_app, Hc, Hc'.
      split; [reflexivity|]. split; [reflexivity|].
      split; [reflexivity|]. split; [intros [=]|reflexivity].
    + right. exists cd.
      assert (Htr3 : trace s3 = trace s ++ (evs ++ evs'))
        by (rewrite Htr', Htr, app_assoc; reflexivity).
      rewrite (new_events_app _ _ _ Htr3), omap_app, Hc.
      destruct Hc' as [[Hc' _]|Hc']; rewrite Hc'.
      * exists (map (conv cd) (range 0 N)). rewrite app_nil_r.
        split; [reflexivity|].
        split; [unfold conversion_script; apply prefix_app_r; reflexivity|].
        split; [intros ? [=]|]. split; [intros [=]|].
        intros ? _ Hin. destruct (Hnoclose _ _ Hin).
      * exists (conversion_script cd w N).
        split; [reflexivity|]. split; [reflexivity|].
        split; [reflexivity|]. split; [intros [=]|reflexivity].
  - split; [apply length_replicate|].
    exists evs1. split; [exact Htr1|]. rewrite Hc1. reflexivity.
Qed.

(** ** The report writers only append to their file *)

Lemma appends_to_refl file (s : state F) : appends_to file s s.
Proof.
  repeat split; auto. exists []. rewrite app_nil_r. reflexivity.
Qed.

Lemma appends_to_trans file (s1 s2 s3 : state F) :
  appends_to file s1 s2 -> appends_to file s2 s3 -> appends_to file s1 s3.
Proof.
  intros (A1 & A2 & A3 & A4 & A5 & a & A6) (B1 & B2 & B3 & B4 & B5 & b & B6).
  repeat split; try congruence.
  - intros g Hg. rewrite B5, A5 by exact Hg. reflexivity.
  - exists (a ++ b). rewrite B6, A6, app_assoc. reflexivity.
Qed.

Lemma appender_ret {A} file (a : A) : appender (F:=F) file (ret a).
Proof. intros s. apply appends_to_refl. Qed.

Lemma appender_raise {A} file e : appender (F:=F) (A:=A) file (raise e).
Proof. intros s. apply appends_to_refl. Qed.

Lemma appender_bind {A B} file (m : M F A) (k : A -> M F B) :
  appender file m -> (forall a, appender file (k a)) ->
  appender file (bind m k).
Proof.
  intros Hm Hk s. specialize (Hm s). unfold bind.
  destruct (m s) as [[a|e] s1]; cbn [snd] in *; [|exact Hm].
  eapply appends_to_trans; [exact Hm|apply Hk].
Qed.

Lemma appender_try_except {A} file (m : M F A) h :
  appender file m -> (forall e k, h e = Some k -> appender file k) ->
  appender file (try_except m h).
Proof.
  intros Hm Hh s. specialize (Hm s). unfold try_except.
  destruct (m s) as [[a|e] s1]; cbn [snd] in *; [exact Hm|].
  destruct (h e) as [k|] eqn:Ek; [|exact Hm].
  eapply appends_to_trans; [exact Hm|apply (Hh e k Ek)].
Qed.

Lemma appender_for_each {A S} file (l : list A) (body : A -> S -> M F S) acc :
  (forall x acc, appender file (body x acc)) ->
  appender file (for_each l body acc).
Proof.
  intros Hbody. revert acc. induction l as [|x l IH]; intros acc; cbn.
  - apply appender_ret.
  - apply appender_bind; auto.
Qed.

Lemma appender_print_to file t : appender (F:=F) file (print_to file t).
Proof.
  intros s. unfold print_to, appends_to.
  cbn [snd fs foreign ptr_attr trace stdout].
  repeat split; auto.
  - intros g Hg. apply lookup_insert_ne. congruence.
  - exists (t ++ [10]).
    rewrite lookup_insert_eq. reflexivity.
Qed.

Ltac appender_step0 :=
  lazymatch goal with
  | |- appender _ (ret _) => apply appender_ret
  | |- appender _ (raise _) => apply appender_raise
  | |- appender _ (bind _ _) => apply appender_bind; [|intros ?]
  | |- appender _ (for_each _ _ _) => apply appender_for_each; intros ? ?
  | |- appender _ (print_to _ _) => apply appender_print_to
  | |- appender _ (if ?b then _ else _) => destruct b eqn:?
  | |- appender _ (match ?x with _ => _ end) => destruct x eqn:?
  end.

Lemma name_handlers_appender file u e k :
  name_handlers U u e = Some k -> appender (F:=F) file k.
Proof.
  unfold name_handlers, local, unicodedata_category. intros H.
  destruct (is_ValueError e); [|destruct (is_UnicodeDecodeError e)];
    inversion H; subst; clear H; repeat appender_step0.
Qed.

Ltac appender_step :=
  lazymatch goal with
  | |- appender _ (try_except _ (name_handlers _ _)) =>
      apply appender_try_except;
      [|intros ? ?; apply name_handlers_appender]
  | |- _ => appender_step0
  end.

Lemma write_conv_txt_appender tbl file :
  appender (F:=F) file (write_conv_txt U tbl file).
Proof.
  unfold write_conv_txt, len, write_conv_txt_entry, unicodedata_name.
  repeat appender_step.
Qed.

Lemma write_conv_html_appender ccsid tbl file :
  appender (F:=F) file (write_conv_html U ccsid tbl file).
Proof.
  unfold write_conv_html, write_conv_html_cell, len, getitem,
    decode_utf_16be, unicodedata_category, ord.
  repeat appender_step.
Qed.

(** X5: whatever the table, and whether they return or raise,
    [write_conv_txt] and [write_conv_html] change nothing but the file
    they are given, and that file only grows at its end: what was in it,
    and what was printed before an exception, stays. *)
Theorem report_writers_append ccsid tbl file (s : state F) :
  appends_to file s (write_conv_txt U tbl file s).2 /\
  appends_to file s (write_conv_html U ccsid tbl file s).2.
Proof.
  split; [apply write_conv_txt_appender|apply write_conv_html_appender].
Qed.

(** ** The text report of a table of single characters *)

Lemma write_conv_txt_entry_single w file cp bs c u (s : state F) :
  utf_16be_decode bs = Some [c] ->
  write_conv_txt_entry U w file (cp, Some bs) u s
  = (Ok (Some [c]),
     mkState (foreign s) (ptr_attr s) (trace s) (stdout s)
       (<[file := default [] (fs s !! file) ++ txt_line U w cp bs c]>
          (fs s))).
Proof.
  intros Hd. unfold write_conv_txt_entry. rewrite Hd.
  unfold txt_line, display_name, unicodedata_name.
  destruct (ud_name U c) as [n|] eqn:Hn.
  - cbv beta iota delta [bind try_except ret print_to fst snd].
    rewrite <- !app_assoc. reflexivity.
  - cbv beta iota delta [bind try_except raise name_handlers local
      unicodedata_category ret is_ValueError print_to fst snd].
    destruct (bool_decide (str (ud_category U c) = str "Cc"));
      rewrite <- !app_assoc; reflexivity.
Qed.

Lemma write_conv_txt_loop_single w file (bss : list bytes) (cs : list Z) :
  Forall2 (fun bs c => utf_16be_decode bs = Some [c]) bss cs ->
  forall a u (s : state F),
  exists u' s',
    for_each (zip (range_from a (length bss)) (map Some bss))
      (write_conv_txt_entry U w file) u s = (Ok u', s') /\
    default [] (fs s' !! file)
    = default [] (fs s !! file)
      ++ concat (imap (fun i p => txt_line U w (a + Z.of_nat i) p.1 p.2)
                   (zip bss cs)).
Proof.
  induction 1 as [|bs c bss cs Hd _ IH]; intros a u s.
  - exists u, s. cbn. rewrite app_nil_r. split; reflexivity.
  - cbn [length range_from map zip zip_with for_each].
    rewrite (bind_ok _ _ _ _ _ (write_conv_txt_entry_single w file a bs c u s Hd)).
    destruct (IH (a + 1) (Some [c])
                (mkState (foreign s) (ptr_attr s) (trace s) (stdout s)
                   (<[file := default [] (fs s !! file)
                              ++ txt_line U w a bs c]> (fs s))))
      as (u' & s' & Hrun & Hfs).
    exists u', s'. split; [exact Hrun|].
    rewrite Hfs. cbn [fs zip zip_with imap concat fst snd].
    rewrite lookup_insert_eq. cbn [from_option id].
    rewrite <- !app_assoc. do 2 f_equal.
    + f_equal. lia.
    + f_equal. apply imap_ext. intros i p _. unfold compose.
      f_equal. lia.
Qed.

(** X6: on a table whose entries each decode to exactly one character,
    [write_conv_txt] returns, and what it has appended to the file is, in
    the order of the table, one line per entry: the index in hexadecimal
    (2 digits for a table of 256 entries, 4 otherwise), the bytes of the
    entry in hexadecimal, and the name of the character, or <control> for
    an unnamed character of category Cc, or <unknown>. *)
Theorem write_conv_txt_renders (bss : list bytes) (cs : list Z) file
    (s : state F) :
  Forall2 (fun bs c => utf_16be_decode bs = Some [c]) bss cs ->
  let width := if Z.of_nat (length bss) =? 256 then 2%nat else 4%nat in
  let r := write_conv_txt U (Some (map Some bss)) file s in
  r.1 = Ok tt /\
  default [] (fs r.2 !! file)
  = default [] (fs s !! file)
    ++ concat (imap (fun i p => txt_line U width (Z.of_nat i) p.1 p.2)
                 (zip bss cs)).
Proof.
  intros Hall width r. subst r.
  destruct (write_conv_txt_loop_single width file bss cs Hall 0 None s)
    as (u' & s' & Hrun & Hfs).
  unfold write_conv_txt, len, enumerate, range.
  cbn [from_option id].
  rewrite length_map.
  cbv beta iota delta [bind ret].
  replace (Z.to_nat (Z.of_nat (length bss) - 0)) with (length bss) by lia.
  fold width. rewrite Hrun. cbn [fst snd]. split; [reflexivity|].
  rewrite Hfs. f_equal.
Qed.

(** ** The first column of the text report *)





(** ** When the HTML report is written *)







(** ** The files of the driver *)

Lemma footprint_refl P (s : state F) : footprint P s s.
Proof. split; [reflexivity|]. exists []. rewrite app_nil_r. reflexivity. Qed.

Lemma footprint_trans P (s1 s2 s3 : state F) :
  footprint P s1 s2 -> footprint P s2 s3 -> footprint P s1 s3.
Proof.
  intros (A1 & a & A2) (B1 & b & B2). split.
  - intros g Hg. rewrite B1, A1 by exact Hg. reflexivity.
  - exists (a ++ b). rewrite B2, A2, app_assoc. reflexivity.
Qed.

Lemma within_weaken {A} (P P' : pystr -> Prop) (m : M F A) :
  (forall g, P g -> P' g) -> within P m -> within P' m.
Proof.
  intros HP Hm s. destruct (Hm s) as (H1 & H2). split; [|exact H2].
  intros g Hg. apply H1. intros HPg. apply Hg, HP, HPg.
Qed.

Lemma within_ret {A} P (a : A) : within (F:=F) P (ret a).
Proof. intros s. apply footprint_refl. Qed.

Lemma within_raise {A} P e : within (F:=F) (A:=A) P (raise e).
Proof. intros s. apply footprint_refl. Qed.

Lemma within_bind {A B} P (m : M F A) (k : A -> M F B) :
  within P m -> (forall a, within P (k a)) -> within P (bind m k).
Proof.
  intros Hm Hk s. specialize (Hm s). unfold bind.
  destruct (m s) as [[a|e] s1]; cbn [snd] in *; [|exact Hm].
  eapply footprint_trans; [exact Hm|apply Hk].
Qed.

Lemma within_try_except {A} P (m : M F A) h :
  within P m -> (forall e k, h e = Some k -> within P k) ->
  within P (try_except m h).
Proof.
  intros Hm Hh s. specialize (Hm s). unfold try_except.
  destruct (m s) as [[a|e] s1]; cbn [snd] in *; [exact Hm|].
  destruct (h e) as [k|] eqn:Ek; [|exact Hm].
  eapply footprint_trans; [exact Hm|apply (Hh e k Ek)].
Qed.

Lemma within_for_each {A S} P (l : list A) (body : A -> S -> M F S) acc :
  (forall x acc, x ∈ l -> within P (body x acc)) ->
  within P (for_each l body acc).
Proof.
  revert acc. induction l as [|x l IH]; intros acc Hbody; cbn.
  - apply within_ret.
  - apply within_bind; [apply Hbody, list_elem_of_here|].
    intros a. apply IH. intros y b Hy.
    apply Hbody, list_elem_of_further, Hy.
Qed.

Lemma within_syscall {A} P (call : F -> A * F) log :
  within P (syscall call log).
Proof.
  intros s. unfold syscall. destruct (call (foreign s)) as [a f'].
  split; [reflexivity|]. exists []. cbn. rewrite app_nil_r. reflexivity.
Qed.

Lemma within_getattr P f : within (F:=F) P (getattr_ptr f).
Proof.
  intros s. unfold getattr_ptr.
  destruct (ptr_attr s !! f); apply footprint_refl.
Qed.

Lemma within_setattr P f p : within (F:=F) P (setattr_ptr f p).
Proof.
  intros s. split; [reflexivity|].
  exists []. cbn. rewrite app_nil_r. reflexivity.
Qed.

Lemma within_print P t : within (F:=F) P (print t).
Proof.
  intros s. split; [reflexivity|]. exists (t ++ [10]). reflexivity.
Qed.

Lemma within_open_w (P : pystr -> Prop) name :
  P name -> within (F:=F) P (open_w name).
Proof.
  intros HP s. split; [|exists []; cbn; rewrite app_nil_r; reflexivity].
  intros g Hg. cbn. apply lookup_insert_ne. intros ->. exact (Hg HP).
Qed.

Lemma appender_within {A} (P : pystr -> Prop) file (m : M F A) :
  P file -> appender file m -> within P m.
Proof.
  intros HP Hm s. destruct (Hm s) as (_ & _ & _ & Hout & Hfs & _).
  split.
  - intros g Hg. apply Hfs. intros ->. exact (Hg HP).
  - exists []. rewrite app_nil_r. exact Hout.
Qed.

Lemma within_lazy_ptr P f (resolve : M F ILEPointer) :
  within P resolve -> within P (lazy_ptr f resolve).
Proof.
  intros Hr. unfold lazy_ptr.
  apply within_try_except; [apply within_getattr|].
  intros e k Hk. destruct e; inversion Hk; subst.
  apply within_bind; [exact Hr|]. intros p.
  apply within_bind; [apply within_setattr|]. intros _. apply within_ret.
Qed.

Ltac within_step :=
  lazymatch goal with
  | |- within _ (ret _) => apply within_ret
  | |- within _ (raise _) => apply within_raise
  | |- within _ (bind _ _) => apply within_bind; [|intros ?]
  | |- within _ (syscall _ _) => apply within_syscall
  | |- within _ (ilecall _ _ _ _ _ _) => apply within_syscall
  | |- within _ (setspp _ _) => apply within_syscall
  | |- within _ (lazy_ptr _ _) => apply within_lazy_ptr
  | |- within _ (load_symbol _ _ _ _) => unfold load_symbol
  | |- within _ (resolve_qtqgesp _) => unfold resolve_qtqgesp
  | |- within _ (print _) => apply within_print
  | |- within _ (to_bytes _ _) => unfold to_bytes
  | |- within _ (setitem _ _ _) => unfold setitem
  | |- within _ (int_hex _) => unfold int_hex
  | |- within _ (if ?b then _ else _) => destruct b eqn:?
  | |- within _ (match ?x with _ => _ end) => destruct x eqn:?
  end.

Lemma get_encoding_scheme_within P ccsid :
  within P (get_encoding_scheme L ccsid).
Proof. unfold get_encoding_scheme. repeat within_step. Qed.

Lemma dump_conv_table_within P ccsid es :
  within P (dump_conv_table L ccsid es).
Proof.
  unfold dump_conv_table, iconv_open, iconv_close. repeat within_step.
  all: apply within_for_each; intros x acc _;
    unfold dump_conv_table_step, iconv; repeat within_step.
Qed.

Lemma report_within ccsid es :
  within (fun g => g = txt_file ccsid \/
                   (es <> 0x1200 /\ g = html_file ccsid))
    (report L U ccsid es).
Proof.
  unfold report.
  apply within_bind; [apply within_print|]. intros _.
  apply within_bind; [apply dump_conv_table_within|]. intros tbl.
  apply within_bind; [apply within_open_w; left; reflexivity|]. intros _.
  apply within_bind.
  { eapply appender_within; [|apply write_conv_txt_appender].
    left. reflexivity. }
  intros _. destruct (es =? 0x1200) eqn:E; cbn [negb];
    [apply within_ret|].
  apply within_bind; [apply within_open_w; right; split; [lia|reflexivity]|].
  intros _. eapply appender_within; [|apply write_conv_html_appender].
  right. split; [lia|reflexivity].
Qed.

Lemma driver_body_within ccsid :
  within (fun g => g = txt_file ccsid \/ g = html_file ccsid)
    (driver_body L U ccsid).
Proof.
  unfold driver_body.
  apply within_bind; [apply get_encoding_scheme_within|]. intros es.
  destruct (negb _); [apply within_ret|].
  destruct (_ || _); [apply within_ret|].
  eapply within_weaken; [|apply report_within].
  intros g [H|[_ H]]; auto.
Qed.

Lemma txt_html_ne a b : txt_file a <> html_file b.
Proof.
  intros H. apply (f_equal last) in H. unfold txt_file, html_file in H.
  rewrite !last_app in H. discriminate.
Qed.

(** X9: the loop of the driver writes no file but the two reports
    [IBM-<ccsid>.txt] and [IBM-<ccsid>.html] of the CCSIDs it enumerates,
    every other file is as it was when the loop ends, returning or
    raising; and what was on the standard output stays, the loop only adds
    to it. *)
Theorem driver_footprint ccsids (s : state F) g :
  let s' := (driver L U ccsids s).2 in
  ((forall ccsid, ccsid ∈ ccsids ->
      g <> txt_file ccsid /\ g <> html_file ccsid) ->
   fs s' !! g = fs s !! g) /\
  exists out, stdout s' = stdout s ++ out.
Proof.
  intros s'. subst s'.
  assert (H : within (fun g => exists ccsid, ccsid ∈ ccsids /\
                        (g = txt_file ccsid \/ g = html_file ccsid))
                (driver L U ccsids)).
  { unfold driver. apply within_for_each. intros ccsid [] Hin.
    eapply within_weaken; [|apply driver_body_within].
    intros g' Hg'. exists ccsid. auto. }
  destruct (H s) as (Hfs & Hout). split; [|exact Hout].
  intros Hg. apply Hfs. intros (ccsid & Hin & Hc).
  destruct (Hg ccsid Hin) as (H1 & H2). destruct Hc; contradiction.
Qed.

(** X10: for a CCSID that [get_encoding_scheme] classifies as 0x1200
    (double byte), the body of the loop leaves [IBM-<ccsid>.html] as it
    was: neither created nor emptied. *)
Theorem driver_body_dbcs_no_html ccsid (s : state F) :
  (get_encoding_scheme L ccsid s).1 = Ok 0x1200 ->
  fs (driver_body L U ccsid s).2 !! html_file ccsid
  = fs s !! html_file ccsid.
Proof.
  intros Hes. unfold driver_body.
  destruct (get_encoding_scheme L ccsid s) as [r s1] eqn:E.
  cbn [fst] in Hes. subst r.
  rewrite (bind_ok _ _ _ _ _ E).
  assert (Hs1 : fs s1 !! html_file ccsid = fs s !! html_file ccsid).
  { pose proof (get_encoding_scheme_within (fun _ => False) ccsid s) as [H _].
    rewrite E in H. apply H. tauto. }
  cbn [negb orb Z.eqb Pos.eqb].
  change (0x1200 =? 0x1100) with false. change (0x1200 =? 0x1200) with true.
  cbn [negb orb].
  destruct (_ || _); [exact Hs1|].
  destruct (report_within ccsid 0x1200 s1) as [H _].
  rewrite H; [exact Hs1|].
  intros [Heq|[Hne _]]; [|lia].
  exact (txt_html_ne ccsid ccsid (eq_sym Heq)).
Qed.

(** ** The reports of two CCSIDs do not collide *)

Lemma digits_aux_value base fuel :
  2 <= base ->
  forall n acc,
    0 <= n < 2 ^ Z.of_nat fuel ->
    fold_left (fun a d => a * base + d) (digits_aux base fuel n acc) 0
    = fold_left (fun a d => a * base + d) acc n.
Proof.
  intros Hbase. induction fuel as [|k IH]; intros n acc Hn.
  - cbn in *. replace n with 0 by lia. reflexivity.
  - cbn [digits_aux]. destruct (n <? base) eqn:E.
    + cbn [fold_left]. f_equal.
    + rewrite IH.
      * cbn [fold_left]. f_equal.
        pose proof (Z.div_mod n base). rewrite (Z.mul_comm (n / base)). lia.
      * split; [apply Z.div_pos; lia|].
        apply Z.div_lt_upper_bound; [lia|].
        rewrite Nat2Z.inj_succ, Z.pow_succ_r in Hn by lia.
        assert (0 < 2 ^ Z.of_nat k) by (apply Z.pow_pos_nonneg; lia).
        nia.
Qed.

Lemma digits_value base n :
  2 <= base -> 0 <= n ->
  fold_left (fun a d => a * base + d) (digits base n) 0 = n.
Proof.
  intros Hbase Hn. unfold digits. rewrite digits_aux_value; [reflexivity|lia|].
  split; [exact Hn|].
  destruct (Z.eq_dec n 0) as [->|Hne]; [reflexivity|].
  rewrite Nat2Z.inj_succ, Z2Nat.id by apply Z.log2_nonneg.
  apply Z.log2_spec. lia.
Qed.

Lemma fmt_d_value w n :
  0 <= n ->
  fold_left (fun a c => a * 10 + (if c <? 58 then c - 48 else c - 87))
    (fmt_d w n) 0 = n.
Proof.
  intros Hn. unfold fmt_d, fmt_num, zfill.
  destruct (n <? 0) eqn:E; [lia|]. rewrite Z.abs_eq by exact Hn.
  rewrite fold_left_app.
  assert (H0 : forall k,
            fold_left (fun a c => a * 10 + (if c <? 58 then c - 48 else c - 87))
              (replicate k 48) 0 = 0).
  { induction k as [|k IH]; [reflexivity|exact IH]. }
  rewrite H0.
  rewrite <- (digits_value 10 n) at 2 by lia.
  generalize (digits 10 n). generalize 0.
  intros a l. revert a. induction l as [|d l IH]; intros a; [reflexivity|].
  cbn [map fold_left]. rewrite IH. f_equal. unfold hex_digit.
  destruct (d <? 10) eqn:Ed.
  - destruct (48 + d <? 58) eqn:E1; lia.
  - destruct (87 + d <? 58) eqn:E1; lia.
Qed.

Lemma fmt_d_inj w a b : 0 <= a -> 0 <= b -> fmt_d w a = fmt_d w b -> a = b.
Proof.
  intros Ha Hb H. rewrite <- (fmt_d_value w a Ha), <- (fmt_d_value w b Hb), H.
  reflexivity.
Qed.

Lemma txt_file_inj a b : 0 <= a -> 0 <= b -> txt_file a = txt_file b -> a = b.
Proof.
  intros Ha Hb H. unfold txt_file in H.
  apply app_inv_head, app_inv_tail in H. exact (fmt_d_inj 3 a b Ha Hb H).
Qed.

Lemma html_file_inj a b :
  0 <= a -> 0 <= b -> html_file a = html_file b -> a = b.
Proof.
  intros Ha Hb H. unfold html_file in H.
  apply app_inv_head, app_inv_tail in H. exact (fmt_d_inj 3 a b Ha Hb H).
Qed.

(** X11: the reports of two different CCSIDs (not negative, as all those
    of the loop are) have different names, so that the work done for one
    CCSID leaves both reports of any other as they were: no report of the
    run is overwritten by a later one. *)
Theorem reports_do_not_collide a b (s : state F) :
  0 <= a -> 0 <= b -> a <> b ->
  let s' := (driver_body L U a s).2 in
  (txt_file a <> txt_file b /\ html_file a <> html_file b /\
   txt_file a <> html_file b /\ html_file a <> txt_file b) /\
  fs s' !! txt_file b = fs s !! txt_file b /\
  fs s' !! html_file b = fs s !! html_file b.
Proof.
  intros Ha Hb Hab s'. subst s'.
  assert (H1 : txt_file a <> txt_file b)
    by (intros H; exact (Hab (txt_file_inj a b Ha Hb H))).
  assert (H2 : html_file a <> html_file b)
    by (intros H; exact (Hab (html_file_inj a b Ha Hb H))).
  assert (H3 : txt_file a <> html_file b) by apply txt_html_ne.
  assert (H4 : html_file a <> txt_file b)
    by (intros H; exact (txt_html_ne b a (eq_sym H))).
  split; [auto|].
  destruct (driver_body_within a s) as [Hfs _].
  split; apply Hfs; intros [H|H]; congruence.
Qed.

(** ** A converter that cannot be opened *)

Lemma bind_print {B} t (k : unit -> M F B) s :
  bind (print t) k s = k tt (print t s).2.
Proof. reflexivity. Qed.

(** X12: in the body of the loop, for a CCSID that passes the two tests,
    when [iconv_open] hands back a descriptor whose [rtn] is -1 the
    failure is only printed: [dump_conv_table] returns [None], the text
    report is nevertheless opened, hence created empty, and
    [write_conv_txt] then raises [TypeError] on the length of [None],
    which ends the loop; no HTML report is opened. *)
Theorem driver_body_open_failure ccsid es (s s1 s2 : state F) cd :
  get_encoding_scheme L ccsid s = (Ok es, s1) ->
  es = 0x1100 \/ es = 0x1200 ->
  ccsid <> 16684 -> ccsid <> 57777 ->
  iconv_open L 1200 ccsid
    (print (str "ccsid: " ++ fmt_d 0 ccsid ++ str " " ++ fmt_x 0 es) s1).2
  = (Ok cd, s2) ->
  c_int (rtn cd) = -1 ->
  driver_body L U ccsid s
  = (Raise TypeError,
     mkState (foreign s2) (ptr_attr s2) (trace s2)
       (stdout s2 ++ str "Couldn't open converter" ++ [10])
       (<[txt_file ccsid := []]> (fs s2))).
Proof.
  intros Hes Hsup H1 H2 Hopen Hrtn. unfold driver_body.
  rewrite (bind_ok _ _ _ _ _ Hes).
  replace ((es =? 0x1100) || (es =? 0x1200)) with true
    by (destruct Hsup as [-> | ->]; reflexivity).
  replace ((ccsid =? 16684) || (ccsid =? 57777)) with false
    by (symmetry; apply orb_false_iff; lia).
  cbn [negb]. unfold report. rewrite bind_print.
  assert (Hdump : dump_conv_table L ccsid es
                    (print (str "ccsid: " ++ fmt_d 0 ccsid ++ str " "
                              ++ fmt_x 0 es) s1).2
                  = (Ok None,
                     mkState (foreign s2) (ptr_attr s2) (trace s2)
                       (stdout s2 ++ str "Couldn't open converter" ++ [10])
                       (fs s2))).
  { unfold dump_conv_table. rewrite (bind_ok _ _ _ _ _ Hopen), Hrtn.
    reflexivity. }
  rewrite (bind_ok _ _ _ _ _ Hdump). reflexivity.
Qed.

(** ** What the driver can raise *)











(** ** The system calls of the driver *)

Lemma emits_ret {A} P (a : A) : emits (F:=F) P (ret a).
Proof. intros s. exists []. split; [symmetry; apply app_nil_r|constructor]. Qed.

Lemma emits_raise {A} P e : emits (F:=F) (A:=A) P (raise e).
Proof. intros s. exists []. split; [symmetry; apply app_nil_r|constructor]. Qed.

Lemma emits_bind {A B} P (m : M F A) (k : A -> M F B) :
  emits P m -> (forall a, emits P (k a)) -> emits P (bind m k).
Proof.
  intros Hm Hk s. destruct (Hm s) as (evs1 & H1 & HP1). unfold bind.
  destruct (m s) as [[a|e] s1]; cbn [snd] in *; [|eauto].
  destruct (Hk a s1) as (evs2 & H2 & HP2).
  exists (evs1 ++ evs2). split; [|apply Forall_app; auto].
  rewrite H2, H1, app_assoc. reflexivity.
Qed.

Lemma emits_try_except {A} P (m : M F A) h :
  emits P m -> (forall e k, h e = Some k -> emits P k) ->
  emits P (try_except m h).
Proof.
  intros Hm Hh s. destruct (Hm s) as (evs1 & H1 & HP1). unfold try_except.
  destruct (m s) as [[a|e] s1]; cbn [snd] in *; [eauto|].
  destruct (h e) as [k|] eqn:Ek; [|eauto].
  destruct (Hh e k Ek s1) as (evs2 & H2 & HP2).
  exists (evs1 ++ evs2). split; [|apply Forall_app; auto].
  rewrite H2, H1, app_assoc. reflexivity.
Qed.

Lemma emits_for_each {A S} P (l : list A) (body : A -> S -> M F S) acc :
  (forall x acc, emits P (body x acc)) -> emits P (for_each l body acc).
Proof.
  intros Hbody. revert acc. induction l as [|x l IH]; intros acc; cbn.
  - apply emits_ret.
  - apply emits_bind; auto.
Qed.

Lemma emits_syscall {A} (P : event -> Prop) (call : F -> A * F) log :
  (forall a, P (log a)) -> emits P (syscall call log).
Proof.
  intros HP s. unfold syscall. destruct (call (foreign s)) as [a f'].
  exists [log a]. split; [reflexivity|]. constructor; [apply HP|constructor].
Qed.

Lemma emits_silent {A} P (m : M F A) :
  (forall s, trace (m s).2 = trace s) -> emits P m.
Proof.
  intros Hm s. exists []. rewrite Hm. split; [symmetry; apply app_nil_r|].
  constructor.
Qed.

Lemma emits_getattr P f : emits (F:=F) P (getattr_ptr f).
Proof.
  apply emits_silent. intros s. unfold getattr_ptr.
  destruct (ptr_attr s !! f); reflexivity.
Qed.

Lemma emits_lazy_ptr P f (resolve : M F ILEPointer) :
  emits P resolve -> emits P (lazy_ptr f resolve).
Proof.
  intros Hr. unfold lazy_ptr.
  apply emits_try_except; [apply emits_getattr|].
  intros e k Hk. destruct e; inversion Hk; subst.
  apply emits_bind; [exact Hr|]. intros p.
  apply emits_bind; [apply emits_silent; reflexivity|]. intros _.
  apply emits_ret.
Qed.

Lemma emits_appender {A} P file (m : M F A) : appender file m -> emits P m.
Proof.
  intros Hm. apply emits_silent. intros s.
  destruct (Hm s) as (_ & _ & Htr & _). exact Htr.
Qed.

Ltac report_event_solve :=
  intros ?; split;
  [ reflexivity
  | intros ? ? ? H;
    first [ discriminate H
          | injection H as <- <- <-; split; reflexivity ] ].

Ltac emits_step :=
  lazymatch goal with
  | |- emits _ (ret _) => apply emits_ret
  | |- emits _ (raise _) => apply emits_raise
  | |- emits _ (bind _ _) => apply emits_bind; [|intros ?]
  | |- emits _ (syscall _ _) => apply emits_syscall; report_event_solve
  | |- emits _ (ilecall _ _ _ _ _ _) => apply emits_syscall; report_event_solve
  | |- emits _ (setspp _ _) => apply emits_syscall; report_event_solve
  | |- emits _ (lazy_ptr _ _) => apply emits_lazy_ptr
  | |- emits _ (load_symbol _ _ _ _) => unfold load_symbol
  | |- emits _ (print _) => apply emits_silent; reflexivity
  | |- emits _ (open_w _) => apply emits_silent; reflexivity
  | |- emits _ (to_bytes _ _) => unfold to_bytes
  | |- emits _ (setitem _ _ _) => unfold setitem
  | |- emits _ (if ?b then _ else _) => destruct b eqn:?
  | |- emits _ (match ?x with _ => _ end) => destruct x eqn:?
  end.

Lemma report_emits ccsid es :
  emits (report_event ccsid) (report L U ccsid es).
Proof.
  unfold report. emits_step; [emits_step|].
  emits_step.
  { unfold dump_conv_table, iconv_open, iconv_close. repeat emits_step.
    all: apply emits_for_each; intros x acc;
      unfold dump_conv_table_step, iconv; repeat emits_step. }
  emits_step; [emits_step|].
  emits_step; [eapply emits_appender, write_conv_txt_appender|].
  emits_step; [|emits_step].
  emits_step; [emits_step|].
  eapply emits_appender, write_conv_html_appender.
Qed.

Lemma get_encoding_scheme_probe ccsid s :
  wp (get_encoding_scheme L ccsid)
     (fun r s' => exists evs, trace s' = trace s ++ evs /\
        Forall (fun ev => call_of ev = None) evs /\
        (omap probed_ccsid evs = [c_int ccsid] \/
         (omap probed_ccsid evs = [] /\ exists e, r = Raise e))) s.
Proof.
  unfold get_encoding_scheme.
  repeat wp_step; eexists; (split; [trace_eq|]);
    (split; [repeat constructor|]);
    first [ left; reflexivity | right; split; [reflexivity|eauto] ].
Qed.

Lemma omap_none {A B} (f : A -> option B) l :
  Forall (fun x => f x = None) l -> omap f l = [].
Proof.
  induction 1 as [|x l Hx _ IH]; [reflexivity|].
  cbn. rewrite Hx. exact IH.
Qed.

Lemma driver_body_calls ccsid (s : state F) :
  exists evs,
    trace (driver_body L U ccsid s).2 = trace s ++ evs /\
    (omap probed_ccsid evs = [c_int ccsid] \/
     (omap probed_ccsid evs = [] /\
      exists e, (driver_body L U ccsid s).1 = Raise e)) /\
    forall to_code from_code cd,
      COpen to_code from_code cd ∈ omap call_of evs ->
      ccsid <> 16684 /\ ccsid <> 57777 /\
      to_code = mk_qtqcode_t 1200 0 0 0 0 0 /\
      from_code = mk_qtqcode_t (c_int ccsid) 0 0 0 0 0.
Proof.
  pose proof (get_encoding_scheme_probe ccsid s) as Hp. unfold wp in Hp.
  unfold driver_body.
  destruct (get_encoding_scheme L ccsid s) as [[es|e0] s1] eqn:Hes;
    cbn [fst snd] in Hp; destruct Hp as (evs1 & Htr1 & Hnone & Hprobe).
  2:{ rewrite (bind_raise _ _ _ _ _ Hes). exists evs1.
      split; [exact Htr1|]. split.
      - destruct Hprobe as [H|[H _]]; [left; exact H|right; eauto].
      - rewrite (omap_none _ _ Hnone). intros ? ? ? H.
        apply elem_of_nil in H. contradiction. }
  rewrite (bind_ok _ _ _ _ _ Hes).
  destruct Hprobe as [Hprobe|[_ [e He]]]; [|discriminate].
  assert (Hskip : exists evs,
            trace s1 = trace s ++ evs /\
            (omap probed_ccsid evs = [c_int ccsid] \/
             (omap probed_ccsid evs = [] /\
              exists e, (Ok (A:=unit) tt) = Raise e)) /\
            forall to_code from_code cd,
              COpen to_code from_code cd ∈ omap call_of evs ->
              ccsid <> 16684 /\ ccsid <> 57777 /\
              to_code = mk_qtqcode_t 1200 0 0 0 0 0 /\
              from_code = mk_qtqcode_t (c_int ccsid) 0 0 0 0 0).
  { exists evs1. split; [exact Htr1|]. split; [left; exact Hprobe|].
    rewrite (omap_none _ _ Hnone). intros ? ? ? H.
    apply elem_of_nil in H. contradiction. }
  destruct (negb _); [exact Hskip|].
  destruct (_ || _) eqn:Hexcl; [exact Hskip|]. clear Hskip.
  apply orb_false_iff in Hexcl as [Hx1 Hx2].
  destruct (report_emits ccsid es s1) as (evs2 & Htr2 & Hrep).
  exists (evs1 ++ evs2). split; [rewrite Htr2, Htr1, app_assoc; reflexivity|].
  split.
  - left. rewrite omap_app, Hprobe, (omap_none probed_ccsid evs2).
    + reflexivity.
    + eapply Forall_impl; [exact Hrep|]. intros ev [H _]. exact H.
  - intros to_code from_code cd Hin.
    rewrite omap_app, (omap_none _ _ Hnone) in Hin. cbn [app] in Hin.
    apply list_elem_of_omap in Hin as (ev & Hev & Hcall).
    rewrite Forall_forall in Hrep. destruct (Hrep ev Hev) as [_ Hopen].
    destruct (Hopen _ _ _ Hcall) as [-> ->].
    repeat split; lia.
Qed.

(** X14: the loop of the driver asks for the encoding scheme of its
    CCSIDs in their order, one probe each, and stops asking where it
    raises: the probes of a run are a prefix of the CCSIDs, all of them
    when the loop returns.  And it opens converters only from a CCSID of
    the loop other than 16684 and 57777, always to CCSID 1200. *)
Theorem driver_call_discipline ccsids (s : state F) :
  let r := (driver L U ccsids s).1 in
  let evs := new_events s (driver L U ccsids s).2 in
  omap probed_ccsid evs `prefix_of` map c_int ccsids /\
  (r = Ok tt -> omap probed_ccsid evs = map c_int ccsids) /\
  forall to_code from_code cd,
    COpen to_code from_code cd ∈ omap call_of evs ->
    to_code = mk_qtqcode_t 1200 0 0 0 0 0 /\
    exists ccsid, ccsid ∈ ccsids /\ ccsid <> 16684 /\ ccsid <> 57777 /\
                  from_code = mk_qtqcode_t (c_int ccsid) 0 0 0 0 0.
Proof.
  cbv zeta.
  assert (H : exists evs,
            trace (driver L U ccsids s).2 = trace s ++ evs /\
            omap probed_ccsid evs `prefix_of` map c_int ccsids /\
            ((driver L U ccsids s).1 = Ok tt ->
             omap probed_ccsid evs = map c_int ccsids) /\
            forall to_code from_code cd,
              COpen to_code from_code cd ∈ omap call_of evs ->
              to_code = mk_qtqcode_t 1200 0 0 0 0 0 /\
              exists ccsid, ccsid ∈ ccsids /\ ccsid <> 16684 /\
                ccsid <> 57777 /\
                from_code = mk_qtqcode_t (c_int ccsid) 0 0 0 0 0).
  { revert s. unfold driver.
    induction ccsids as [|c l IH]; intros s.
    - exists []. cbn. split; [symmetry; apply app_nil_r|].
      split; [reflexivity|]. split; [reflexivity|].
      intros ? ? ? H. apply elem_of_nil in H. contradiction.
    - cbn [for_each map].
      destruct (driver_body_calls c s) as (evs1 & Htr1 & Hprobe & Hopen).
      unfold bind.
      destruct (driver_body L U c s) as [[[]|e] s1]; cbn [fst snd] in *.
      + destruct Hprobe as [Hprobe|[_ [e He]]]; [|discriminate].
        destruct (IH s1) as (evs2 & Htr2 & Hpre & Hall & Hopen2).
        exists (evs1 ++ evs2).
        split; [rewrite Htr2, Htr1, app_assoc; reflexivity|].
        rewrite !omap_app, Hprobe. cbn [app].
        split; [apply prefix_cons, Hpre|].
        split; [intros Hr; f_equal; apply Hall, Hr|].
        intros to_code from_code cd Hin.
        apply elem_of_app in Hin as [Hin|Hin].
        * destruct (Hopen _ _ _ Hin) as (H1 & H2 & H3 & H4).
          split; [exact H3|]. exists c.
          split; [apply list_elem_of_here|auto].
        * destruct (Hopen2 _ _ _ Hin) as (H1 & c' & H2 & H3).
          split; [exact H1|]. exists c'.
          split; [apply list_elem_of_further, H2|exact H3].
      + exists evs1. split; [exact Htr1|].
        split.
        { destruct Hprobe as [-> |[-> _]];
            [apply prefix_cons, prefix_nil|apply prefix_nil]. }
        split; [discriminate|].
        intros to_code from_code cd Hin.
        destruct (Hopen _ _ _ Hin) as (H1 & H2 & H3 & H4).
        split; [exact H3|]. exists c.
        split; [apply list_elem_of_here|auto]. }
  destruct H as (evs & Htr & H).
  rewrite (new_events_app _ _ _ Htr). exact H.
Qed.

(** ** Lookups over a whole run *)

Lemma lookups_app f evs1 evs2 :
  lookups f (evs1 ++ evs2) = (lookups f evs1 + lookups f evs2)%nat.
Proof. unfold lookups. rewrite List.filter_app, length_app. reflexivity. Qed.

Lemma resolves_once_silent {A} (m : M F A) :
  (forall s, trace (m s).2 = trace s /\ ptr_attr (m s).2 = ptr_attr s) ->
  resolves_once m.
Proof.
  intros Hm s. destruct (Hm s) as [Htr Hattr]. exists [].
  split; [rewrite Htr; symmetry; apply app_nil_r|].
  intros f. cbn. split; [lia|]. split.
  - intros _. rewrite Hattr. auto.
  - discriminate.
Qed.

Lemma resolves_once_ret {A} (a : A) : resolves_once (F:=F) (ret a).
Proof. apply resolves_once_silent. intros s. split; reflexivity. Qed.

Lemma resolves_once_raise {A} e : resolves_once (F:=F) (A:=A) (raise e).
Proof. apply resolves_once_silent. intros s. split; reflexivity. Qed.

Lemma resolves_once_bind {A B} (m : M F A) (k : A -> M F B) :
  resolves_once m -> (forall a, resolves_once (k a)) ->
  resolves_once (bind m k).
Proof.
  intros Hm Hk s. destruct (Hm s) as (evs1 & Htr1 & H1). unfold bind.
  destruct (m s) as [[a|e] s1]; cbn [fst snd] in *.
  2:{ exists evs1. split; [exact Htr1|]. intros f.
      destruct (H1 f) as (Ha & Hb & _).
      split; [exact Ha|]. split; [exact Hb|].
      intros _ [? ?]. discriminate. }
  destruct (Hk a s1) as (evs2 & Htr2 & H2).
  exists (evs1 ++ evs2).
  split; [rewrite Htr2, Htr1, app_assoc; reflexivity|].
  intros f. rewrite lookups_app.
  destruct (H1 f) as (Ha1 & Hb1 & Hc1). destruct (H2 f) as (Ha2 & Hb2 & Hc2).
  assert (Hone : lookups f evs1 = 1%nat -> lookups f evs2 = 0%nat /\
                   ptr_attr (k a s1).2 !! f = ptr_attr s1 !! f /\
                   is_Some (ptr_attr s1 !! f)).
  { intros H. assert (Hs : is_Some (ptr_attr s1 !! f)) by eauto.
    destruct (Hb2 Hs). auto. }
  split; [|split].
  - destruct (Nat.eq_dec (lookups f evs1) 1%nat) as [E|E]; [|lia].
    destruct (Hone E) as (-> & _). lia.
  - intros Hs. destruct (Hb1 Hs) as [-> Heq].
    rewrite <- Heq in Hs. destruct (Hb2 Hs) as [-> Heq2].
    split; [reflexivity|congruence].
  - intros Hsum Hok.
    destruct (Nat.eq_dec (lookups f evs1) 1%nat) as [E|E].
    + destruct (Hone E) as (_ & -> & Hs). exact Hs.
    + apply Hc2; [lia|exact Hok].
Qed.

Lemma resolves_once_for_each {A S} (l : list A) (body : A -> S -> M F S) acc :
  (forall x acc, resolves_once (body x acc)) ->
  resolves_once (for_each l body acc).
Proof.
  intros Hbody. revert acc. induction l as [|x l IH]; intros acc; cbn.
  - apply resolves_once_ret.
  - apply resolves_once_bind; auto.
Qed.

Lemma resolves_once_syscall {A} (call : F -> A * F) log :
  (forall a, lookup_of (log a) = None) ->
  resolves_once (syscall call log).
Proof.
  intros Hlog s. unfold syscall. destruct (call (foreign s)) as [a f'].
  exists [log a]. split; [reflexivity|]. intros f.
  assert (H0 : lookups f [log a] = 0%nat)
    by (unfold lookups; cbn; rewrite Hlog; reflexivity).
  rewrite H0. split; [lia|]. split; [auto|discriminate].
Qed.

Lemma resolves_once_appender {A} file (m : M F A) :
  appender file m -> resolves_once m.
Proof.
  intros Hm. apply resolves_once_silent. intros s.
  destruct (Hm s) as (_ & Hattr & Htr & _). auto.
Qed.

(** The lazy attribute, for a resolution that makes at most one lookup,
    which is for [f], and that lookup last. *)
Lemma resolves_once_lazy_ptr f (resolve : M F ILEPointer) :
  (forall s, ptr_attr (resolve s).2 = ptr_attr s /\
     exists evs, trace (resolve s).2 = trace s ++ evs /\
       (lookups f evs <= 1)%nat /\
       (forall g, g <> f -> lookups g evs = 0%nat)) ->
  resolves_once (lazy_ptr f resolve).
Proof.
  intros Hr s. unfold lazy_ptr, try_except, getattr_ptr.
  destruct (ptr_attr s !! f) as [p|] eqn:Hf.
  { exists []. split; [symmetry; apply app_nil_r|]. intros g. cbn.
    split; [lia|]. split; [auto|discriminate]. }
  cbn beta iota. unfold bind, setattr_ptr, ret.
  destruct (Hr s) as (Hattr & evs & Htr & Hle & Hother).
  destruct (resolve s) as [[p|e] s1]; cbn [fst snd] in *;
    exists evs; (split; [cbn [trace]; exact Htr|]); intros g;
    destruct (decide (g = f)) as [->|Hg].
  - split; [exact Hle|]. split.
    + rewrite Hf. intros [? ?]. discriminate.
    + intros _ _. cbn [ptr_attr]. rewrite lookup_insert_eq. eauto.
  - rewrite (Hother g Hg). split; [lia|]. split; [|discriminate].
    intros _. split; [reflexivity|]. cbn [ptr_attr].
    rewrite lookup_insert_ne by congruence. rewrite Hattr. reflexivity.
  - split; [exact Hle|]. split.
    + rewrite Hf. intros [? ?]. discriminate.
    + intros _ [? ?]. discriminate.
  - rewrite (Hother g Hg). split; [lia|]. split; [|discriminate].
    intros _. split; [reflexivity|]. rewrite Hattr. reflexivity.
Qed.

Lemma lookups_cons_ne f ev evs :
  lookup_of ev <> Some f -> lookups f (ev :: evs) = lookups f evs.
Proof.
  intros H. unfold lookups. cbn [List.filter].
  rewrite bool_decide_eq_false_2 by exact H. reflexivity.
Qed.

Lemma lookups_cons_le f ev evs :
  (lookups f (ev :: evs) <= S (lookups f evs))%nat.
Proof.
  unfold lookups. cbn [List.filter]. destruct (bool_decide _); cbn; lia.
Qed.

Lemma load_symbol_lookups f library srvpgm symbol :
  (forall actgrp rc p, lookup_of (EvILESYMX actgrp symbol rc p) = Some f) ->
  forall s : state F,
    ptr_attr (load_symbol L library srvpgm symbol s).2 = ptr_attr s /\
    exists evs,
      trace (load_symbol L library srvpgm symbol s).2 = trace s ++ evs /\
      (lookups f evs <= 1)%nat /\
      (forall g, g <> f -> lookups g evs = 0%nat).
Proof.
  intros Hsym s. unfold load_symbol, bind, syscall, raise, ret.
  destruct (_ILELOADX L _ _ (foreign s)) as [actgrp f1]. cbn [foreign].
  destruct (c_ulonglong actgrp =? _).
  { split; [reflexivity|]. eexists. split; [reflexivity|].
    split; [|intros g _]; rewrite lookups_cons_ne by discriminate;
      cbn; lia. }
  cbn [foreign].
  destruct (_ILESYMX L _ _ f1) as [[rc p] f2].
  assert (Hev : forall g, g <> f ->
            lookups g [EvILELOADX (library ++ "/" ++ srvpgm) ILELOAD_LIBOBJ
                         actgrp;
                       EvILESYMX (c_ulonglong actgrp) symbol rc p] = 0%nat).
  { intros g Hg. rewrite lookups_cons_ne by discriminate.
    rewrite lookups_cons_ne by (rewrite Hsym; congruence). reflexivity. }
  assert (Hle : (lookups f
                   [EvILELOADX (library ++ "/" ++ srvpgm) ILELOAD_LIBOBJ
                      actgrp;
                    EvILESYMX (c_ulonglong actgrp) symbol rc p] <= 1)%nat).
  { rewrite lookups_cons_ne by discriminate. apply lookups_cons_le. }
  cbn [fst snd].
  destruct (negb _); cbn [snd ptr_attr trace];
    (split; [reflexivity|]); eexists;
    (split; [rewrite <- app_assoc; reflexivity|]); split; assumption.
Qed.

Lemma resolve_qtqgesp_lookups (s : state F) :
  ptr_attr (resolve_qtqgesp L s).2 = ptr_attr s /\
  exists evs,
    trace (resolve_qtqgesp L s).2 = trace s ++ evs /\
    (lookups f_get_encoding_scheme evs <= 1)%nat /\
    (forall g, g <> f_get_encoding_scheme -> lookups g evs = 0%nat).
Proof.
  unfold resolve_qtqgesp, bind, syscall, raise, ret.
  destruct (_RSLOBJ2 L _ _ _ (foreign s)) as [[rc p] f1]. cbn [fst snd].
  destruct (negb _); cbn [snd ptr_attr trace];
    (split; [reflexivity|]); eexists; (split; [reflexivity|]);
    (split; [apply lookups_cons_le|]); intros g Hg;
    rewrite lookups_cons_ne by (cbn; congruence); reflexivity.
Qed.

Ltac resolves_once_step :=
  lazymatch goal with
  | |- resolves_once (ret _) => apply resolves_once_ret
  | |- resolves_once (raise _) => apply resolves_once_raise
  | |- resolves_once (bind _ _) => apply resolves_once_bind; [|intros ?]
  | |- resolves_once (lazy_ptr _ (load_symbol _ _ _ _)) =>
      apply resolves_once_lazy_ptr, load_symbol_lookups; reflexivity
  | |- resolves_once (lazy_ptr _ (resolve_qtqgesp _)) =>
      apply resolves_once_lazy_ptr, resolve_qtqgesp_lookups
  | |- resolves_once (syscall _ _) =>
      apply resolves_once_syscall; reflexivity
  | |- resolves_once (ilecall _ _ _ _ _ _) =>
      apply resolves_once_syscall; reflexivity
  | |- resolves_once (setspp _ _) =>
      apply resolves_once_syscall; reflexivity
  | |- resolves_once (print _) =>
      apply resolves_once_silent; intros ?; split; reflexivity
  | |- resolves_once (open_w _) =>
      apply resolves_once_silent; intros ?; split; reflexivity
  | |- resolves_once (write_conv_txt _ _ _) =>
      eapply resolves_once_appender, write_conv_txt_appender
  | |- resolves_once (write_conv_html _ _ _ _) =>
      eapply resolves_once_appender, write_conv_html_appender
  | |- resolves_once (to_bytes _ _) => unfold to_bytes
  | |- resolves_once (setitem _ _ _) => unfold setitem
  | |- resolves_once (if ?b then _ else _) => destruct b eqn:?
  | |- resolves_once (match ?x with _ => _ end) => destruct x eqn:?
  end.

Lemma driver_body_resolves_once ccsid :
  resolves_once (driver_body L U ccsid).
Proof.
  unfold driver_body, get_encoding_scheme, report, dump_conv_table,
    iconv_open, iconv_close.
  repeat resolves_once_step.
  all: apply resolves_once_for_each; intros x acc;
    unfold dump_conv_table_step, iconv; repeat resolves_once_step.
Qed.

(** X15: over a whole run of the loop of the driver, from any state,
    there is at most one lookup ([_ILESYMX], or [_RSLOBJ2] for QTQGESP) for
    each of the bridge functions, however many thousands of calls the run
    makes; for a function whose pointer is already cached there is none,
    and the cached pointer is the same at the end. *)
Theorem driver_resolves_once ccsids (s : state F) f :
  let s' := (driver L U ccsids s).2 in
  let evs := new_events s s' in
  (lookups f evs <= 1)%nat /\
  (is_Some (ptr_attr s !! f) ->
   lookups f evs = 0%nat /\ ptr_attr s' !! f = ptr_attr s !! f).
Proof.
  cbv zeta.
  assert (H : resolves_once (driver L U ccsids)).
  { unfold driver. apply resolves_once_for_each. intros ccsid [].
    apply driver_body_resolves_once. }
  destruct (H s) as (evs & Htr & Hf).
  rewrite (new_events_app _ _ _ Htr).
  destruct (Hf f) as (H1 & H2 & _). auto.
Qed.

End Properties.

(** * The statements at work on the small foreign side *)

Module Witness.

Import Toy.

(** CCSID 37 is single-byte: the table has 256 entries. *)
Lemma dump_conv_table_builds_table_witness :
  let s := fresh 1 in
  let cd := mk_iconv_t 0 (37 :: 1200 :: replicate 10 0) in
  let s1 := (iconv_open world 1200 37 s).2 in
  iconv_open world 1200 37 s = (Ok cd, s1) /\
  c_int (rtn cd) <> -1 /\
  ((forall r s',
      dump_conv_table world 37 0x1100 s = (Ok r, s') ->
      exists tbl outs s2 rc,
        r = Some tbl /\
        tbl = map Some outs /\
        Z.of_nat (length tbl) = 256 /\
        converts world cd 1 (range 0 256) s1 outs s2 /\
        iconv_close world cd s2 = (Ok rc, s') /\
        forall i, 0 <= i < 256 ->
          exists data rc_i out s0 s0',
            length data = 1%nat /\ be_uint data = i /\
            iconv world cd data s0 = (Ok (rc_i, out), s0') /\
            tbl !! Z.to_nat i = Some (Some out)) /\
   (forall outs s2 rc s',
      converts world cd 1 (range 0 256) s1 outs s2 ->
      iconv_close world cd s2 = (Ok rc, s') ->
      dump_conv_table world 37 0x1100 s = (Ok (Some (map Some outs)), s'))).
Proof.
  intros s cd s1.
  assert (H1 : iconv_open world 1200 37 s = (Ok cd, s1))
    by (vm_compute; reflexivity).
  assert (H2 : c_int (rtn cd) <> -1) by (vm_compute; discriminate).
  split; [exact H1|]. split; [exact H2|].
  exact (dump_conv_table_builds_table world 37 0x1100 s cd s1 H1 H2).
Defined.

(** CCSID 1 comes back with a nonzero feedback word. *)
Lemma get_encoding_scheme_classifies_witness :
  let s := fresh 1 in
  let s' := (get_encoding_scheme world 1 s).2 in
  get_encoding_scheme world 1 s = (Ok (-1), s') /\
  exists ptr args eff fb0 fb1 fb2,
    last (trace s') = Some (EvPGMCALL ptr args PGMCALL_EXCP_NOSIGNAL eff) /\
    ga_ccsid1 args = c_int 1 /\
    pgm_fb eff = (fb0, fb1, fb2) /\
    (c_int fb0 <> 0 \/ c_int fb1 <> 0 \/ c_int fb2 <> 0 -> -1 = -1) /\
    (c_int fb0 = 0 /\ c_int fb1 = 0 /\ c_int fb2 = 0 ->
     -1 = c_int (pgm_es eff)) /\
    (-1 <> 0x1100 -> -1 <> 0x1200 ->
     driver_body world names 1 s = (Ok tt, s')) /\
    (-1 = 0x1100 \/ -1 = 0x1200 -> 1 <> 16684 -> 1 <> 57777 ->
     driver_body world names 1 s = report world names 1 (-1) s').
Proof.
  intros s s'.
  assert (H : get_encoding_scheme world 1 s = (Ok (-1), s'))
    by (vm_compute; reflexivity).
  split; [exact H|].
  exact (get_encoding_scheme_classifies world names 1 s (-1) s' H).
Defined.

(** QtqIconvOpen refuses CCSID 13 in-band. *)
Lemma open_failure_in_band_witness :
  let s := fresh 1 in
  let cd := mk_iconv_t (-1) (13 :: 1200 :: replicate 10 0) in
  let s1 := (iconv_open world 1200 13 s).2 in
  iconv_open world 1200 13 s = (Ok cd, s1) /\
  c_int (rtn cd) = -1 /\
  dump_conv_table world 13 0x1100 s
  = (Ok None, mkState (foreign s1) (ptr_attr s1) (trace s1)
                (stdout s1 ++ str "Couldn't open converter" ++ [10])
                (fs s1)).
Proof.
  intros s cd s1.
  assert (H1 : iconv_open world 1200 13 s = (Ok cd, s1))
    by (vm_compute; reflexivity).
  assert (H2 : c_int (rtn cd) = -1) by (vm_compute; reflexivity).
  split; [exact H1|]. split; [exact H2|].
  exact (proj1 (proj2 (open_failure_in_band world 13 0x1100 s cd s1 H1 H2))).
Defined.

(** The open for CCSID 99 fails at the call: [iconv_open] raises. *)
Lemma ilecallx_failure_surfaces_witness :
  let s := fresh 1 in
  let ev :=
    EvILECALLX (mkILEPointer 7 12)
      (IconvOpenArglist (mk_qtqcode_t 1200 0 0 0 0 0)
                        (mk_qtqcode_t 99 0 0 0 0 0))
      [ARG_MEMPTR; ARG_MEMPTR; ARG_END] sizeof_iconv_t ILECALL_EXCP_NOSIGNAL
      (mk_ilecall_effect 1 0 ILEPointer0
         (mk_iconv_t 0 (99 :: 1200 :: replicate 10 0)) [] 0) in
  ev ∈ new_events s (iconv_open world 1200 99 s).2 /\
  failed_call ev /\
  raises_RuntimeError (iconv_open world 1200 99 s).1.
Proof.
  intros s ev.
  assert (H1 : ev ∈ new_events s (iconv_open world 1200 99 s).2).
  { vm_compute. do 2 apply list_elem_of_further. apply list_elem_of_here. }
  assert (H2 : failed_call ev) by (vm_compute; discriminate).
  split; [exact H1|]. split; [exact H2|].
  exact (proj1 (proj1 (proj2 (ilecallx_failure_surfaces world names s ev))
                  1200 99 H1) H2).
Defined.

(** After a first open, a second one goes through the cached handle. *)
Lemma symbol_cache_witness :
  let s := (iconv_open world 1200 37 (fresh 1)).2 in
  let p := mkILEPointer 7 12 in
  ptr_attr s !! f_iconv_open = Some p /\
  Forall (fun ev => is_resolution ev = false /\
                    forall q, call_ptr ev = Some q -> q = p)
         (new_events s (iconv_open world 1200 300 s).2) /\
  (exists ev, ev ∈ new_events s (iconv_open world 1200 300 s).2 /\
              call_ptr ev = Some p) /\
  ptr_attr (iconv_open world 1200 300 s).2 !! f_iconv_open = Some p.
Proof.
  intros s p.
  assert (H : ptr_attr s !! f_iconv_open = Some p)
    by (vm_compute; reflexivity).
  split; [exact H|].
  exact (proj1 (symbol_cache world _ _ _ _ (bridge_iconv_open world 1200 300) s)
           p H).
Defined.

(** A first open on a foreign side whose first load fails raises and
    leaves the attribute unset; the next open resolves the symbol. *)
Example symbol_cache_retry :
  let r1 := iconv_open world 1200 37 (fresh 0) in
  let r2 := iconv_open world 1200 37 r1.2 in
  r1.1 = Raise (OSError "QSYS/QTQICONV not found") /\
  ptr_attr r1.2 !! f_iconv_open = None /\
  r2.1 = Ok (mk_iconv_t 0 (37 :: 1200 :: replicate 10 0)) /\
  ptr_attr r2.2 !! f_iconv_open = Some (mkILEPointer 7 12).
Proof. vm_compute. repeat split; reflexivity. Qed.


(** The errno cell holds 00 00 0d 4a. *)
Lemma get_ile_errno_reads_errno_witness :
  let s := fresh 1 in
  let s' := (get_ile_errno world s).2 in
  get_ile_errno world s = (Ok 3402, s') /\
  exists pre ptr eff errnop_pase copied,
    new_events s s'
    = pre ++ [EvILECALLX ptr ILEArglistBase [ARG_END] 16
                         ILECALL_EXCP_NOSIGNAL eff;
              EvSETSPP errno_buf errnop_pase;
              EvMEMCPY_WT2 errnop_pase (ile_result_ptr eff) 4 copied] /\
    Forall (fun ev => is_resolution ev = true) pre /\
    let buf := store (zero_buffer 4) (take 4 copied) in
    length buf = 4%nat /\ 3402 = be_uint buf /\ 0 <= 3402 < 2 ^ 32.
Proof.
  intros s s'.
  assert (H : get_ile_errno world s = (Ok 3402, s'))
    by (vm_compute; reflexivity).
  split; [exact H|].
  exact (get_ile_errno_reads_errno world s 3402 s' H).
Defined.

(** QTQGESP fails for CCSID 3: the loop over 1, 2, 3, 4 ends at 3. *)
Lemma driver_stops_at_first_error_witness :
  let s := fresh 1 in
  let s1 := (driver world names [1; 2] s).2 in
  let s2 := (driver_body world names 3 s1).2 in
  driver world names [1; 2] s = (Ok tt, s1) /\
  driver_body world names 3 s1 = (Raise (OSError "_PGMCALL"), s2) /\
  driver world names ([1; 2] ++ 3 :: [4]) s
  = (Raise (OSError "_PGMCALL"), s2).
Proof.
  intros s s1 s2.
  assert (H1 : driver world names [1; 2] s = (Ok tt, s1))
    by (vm_compute; reflexivity).
  assert (H2 : driver_body world names 3 s1
               = (Raise (OSError "_PGMCALL"), s2))
    by (vm_compute; reflexivity).
  split; [exact H1|]. split; [exact H2|].
  exact (driver_stops_at_first_error world names [1; 2] 3 [4] s s1 _ s2 H1 H2).
Defined.

(** The whole enumeration on this foreign side: QTQGESP fails for CCSID 3,
    the run ends with that exception after the CCSIDs 1, 2 and 3 have been
    probed, and CCSID 37, which the loop would reach and whose work
    returns, is never probed. *)
Lemma driver_error_aborts_enumeration :
  (main world names (fresh 1)).1 = Raise (OSError "_PGMCALL") /\
  omap probed_ccsid (trace (main world names (fresh 1)).2) = [1; 2; 3] /\
  range 1 65535 !! 36%nat = Some 37 /\
  (driver_body world names 37 (main world names (fresh 1)).2).1 = Ok tt.
Proof. vm_compute. repeat split; reflexivity. Qed.

(** A lone surrogate after U+0000: the line says '<control>'. *)
Lemma write_conv_txt_error_marker_unreachable_witness :
  let s := fresh 1 in
  utf_16be_decode [xd8; x00] = None /\
  write_conv_txt_entry names 4 (str "out") (1, Some [xd8; x00]) (Some [0]) s
  = bind (print_to (str "out")
            (str "0x" ++ fmt_x 4 1 ++ [9] ++ str "0x" ++ bytes_hex [xd8; x00]
             ++ [9] ++ (if bool_decide (str (ud_category names 0) = str "Cc")
                        then str "<control>" else str "<unknown>")))
         (fun _ => ret (Some [0])) s.
Proof.
  intros s.
  assert (H : utf_16be_decode [xd8; x00] = None) by (vm_compute; reflexivity).
  split; [exact H|].
  exact (write_conv_txt_error_marker_unreachable names 4 (str "out") 1
           [xd8; x00] (Some [0]) s H).
Defined.

(** A table whose second entry is empty. *)
Lemma write_conv_txt_partial_witness :
  let s := fresh 1 in
  let tbl := [Some [x00; x41]; Some []] in
  Some [] ∈ tbl /\
  utf_16be_decode [] = Some [] /\
  length (@nil Z) <> 1%nat /\
  exists e s', write_conv_txt names (Some tbl) (str "out") s = (Raise e, s').
Proof.
  intros s tbl.
  assert (H1 : Some [] ∈ tbl)
    by (apply list_elem_of_further, list_elem_of_here).
  assert (H2 : utf_16be_decode [] = Some []) by reflexivity.
  assert (H3 : length (@nil Z) <> 1%nat) by (simpl; lia).
  split; [exact H1|]. split; [exact H2|]. split; [exact H3|].
  exact (proj1 (proj2 (write_conv_txt_partial names tbl (str "out") s))
           [] [] H1 H2 H3).
Defined.

(** The report of a table whose second entry is a lone surrogate, and of
    one that starts with it. *)
Example write_conv_txt_stale_name :
  fs (write_conv_txt names (Some [Some [x00; x00]; Some [xd8; x00]])
        (str "out") (fresh 1)).2 !! str "out"
  = Some (str "0x0000" ++ [9] ++ str "0x0000" ++ [9] ++ str "<control>"
          ++ [10] ++
          str "0x0001" ++ [9] ++ str "0xd800" ++ [9] ++ str "<control>"
          ++ [10]).
Proof. vm_compute. reflexivity. Qed.

Example write_conv_txt_first_invalid :
  (write_conv_txt names (Some [Some [xd8; x00]]) (str "out") (fresh 1)).1
  = Raise UnboundLocalError.
Proof. vm_compute. reflexivity. Qed.

(** The table of CCSID 37 on this foreign side. *)
Example dump_conv_table_37 :
  exists tbl s',
    dump_conv_table world 37 0x1100 (fresh 1) = (Ok (Some tbl), s') /\
    length tbl = 256%nat /\
    tbl !! 0x41%nat = Some (Some [x00; x41]).
Proof.
  destruct (dump_conv_table world 37 0x1100 (fresh 1)) as [r s'] eqn:E.
  vm_compute in E. inversion E; subst; clear E.
  do 2 eexists. split; [reflexivity|]. split; reflexivity.
Qed.

(** An open that failed in-band makes the driver pass [None] on to the
    report writer. *)
Example driver_body_13 :
  (driver_body world names 13 (fresh 1)).1 = Raise TypeError.
Proof. vm_compute. reflexivity. Qed.

End Witness.


(** * The further statements at work on the small foreign side *)

Module Further.

Import Toy.

(** The open for CCSID 99 fails in the call itself. *)
Lemma dump_conv_table_exceptions_witness :
  let e := RuntimeError "Failed to call QtqIconvOpen with _ILECALL" in
  (dump_conv_table world 99 0x1100 (fresh 1)).1 = Raise e /\ bridge_error e.
Proof.
  split; [vm_compute; reflexivity|].
  apply (dump_conv_table_exceptions world 99 0x1100 (fresh 1)).
  vm_compute. reflexivity.
Defined.

(** A table of two entries, [A] and the unnamed control character U+0001. *)
Lemma write_conv_txt_renders_witness :
  let bss := [[x00; x41]; [x00; x01]] in
  let cs := [0x41; 0x01] in
  let file := str "IBM-037.txt" in
  let r := write_conv_txt names (Some (map Some bss)) file (fresh 1) in
  Forall2 (fun bs c => utf_16be_decode bs = Some [c]) bss cs /\
  r.1 = Ok tt /\
  default [] (fs r.2 !! file)
  = str "0x0000" ++ [9] ++ str "0x0041" ++ [9] ++ str "LATIN CAPITAL LETTER A"
    ++ [10] ++ str "0x0001" ++ [9] ++ str "0x0001" ++ [9] ++ str "<control>"
    ++ [10].
Proof.
  intros bss cs file r.
  assert (H : Forall2 (fun bs c => utf_16be_decode bs = Some [c]) bss cs)
    by (repeat constructor).
  split; [exact H|].
  destruct (write_conv_txt_renders names bss cs file (fresh 1) H) as [H1 H2].
  split; [exact H1|].
  etransitivity; [exact H2|vm_compute; reflexivity].
Defined.


(** CCSID 300 is double-byte. *)
Lemma driver_body_dbcs_no_html_witness :
  (get_encoding_scheme world 300 (fresh 1)).1 = Ok 0x1200 /\
  fs (driver_body world names 300 (fresh 1)).2 !! html_file 300 = None.
Proof.
  assert (H : (get_encoding_scheme world 300 (fresh 1)).1 = Ok 0x1200)
    by (vm_compute; reflexivity).
  split; [exact H|].
  rewrite (driver_body_dbcs_no_html world names 300 (fresh 1) H).
  reflexivity.
Defined.

Lemma reports_do_not_collide_witness :
  let s' := (driver_body world names 37 (fresh 1)).2 in
  txt_file 37 = str "IBM-037.txt" /\ html_file 300 = str "IBM-300.html" /\
  fs s' !! txt_file 300 = None /\ fs s' !! html_file 300 = None.
Proof.
  intros s'.
  destruct (reports_do_not_collide world names 37 300 (fresh 1))
    as (_ & H1 & H2); [lia|lia|lia|].
  split; [vm_compute; reflexivity|]. split; [vm_compute; reflexivity|].
  subst s'. rewrite H1, H2. split; reflexivity.
Defined.

(** The open for CCSID 13 answers with [rtn = -1]. *)
Lemma driver_body_open_failure_witness :
  let s := fresh 1 in
  let s1 := (get_encoding_scheme world 13 s).2 in
  let s1' := (print (str "ccsid: 13 1100") s1).2 in
  let cd := mk_iconv_t (-1) (13 :: 1200 :: replicate 10 0) in
  let s2 := (iconv_open world 1200 13 s1').2 in
  get_encoding_scheme world 13 s = (Ok 0x1100, s1) /\
  iconv_open world 1200 13 s1' = (Ok cd, s2) /\
  c_int (rtn cd) = -1 /\
  (driver_body world names 13 s).1 = Raise TypeError /\
  fs (driver_body world names 13 s).2 = {[ str "IBM-013.txt" := [] ]} /\
  stdout (driver_body world names 13 s).2
  = str "ccsid: 13 1100" ++ [10] ++ str "Couldn't open converter" ++ [10].
Proof.
  intros s s1 s1' cd s2.
  assert (H1 : get_encoding_scheme world 13 s = (Ok 0x1100, s1))
    by (vm_compute; reflexivity).
  assert (H2 : iconv_open world 1200 13
                 (print (str "ccsid: " ++ fmt_d 0 13 ++ str " "
                           ++ fmt_x 0 0x1100) s1).2 = (Ok cd, s2))
    by (vm_compute; reflexivity).
  assert (H3 : c_int (rtn cd) = -1) by reflexivity.
  split; [exact H1|]. split; [vm_compute; reflexivity|].
  split; [exact H3|].
  rewrite (driver_body_open_failure world names 13 0x1100 s s1 s2 cd H1
             ltac:(left; reflexivity) ltac:(lia) ltac:(lia) H2 H3).
  split; [reflexivity|]. split; vm_compute; reflexivity.
Defined.


End Further.
